(** * mcp-arr: the *arr suite API client (src/arr-client.ts)

    A shallow embedding of [ArrClient] and its five service subclasses,
    together with the properties of the request dispatcher, the add-payload
    builders, the calendar query builder and [testConnection].

    Strings are [string]s of bytes (the UTF-8 encoding of the JavaScript
    string), numbers are the integer-valued ones ([Z]), plain objects used
    as maps of headers are [gmap string string], and objects that are
    serialised keep their properties in insertion order. *)

From Stdlib Require Import ZArith NArith Ascii String List DecimalString.
From stdpp Require Import base option list gmap strings.

Set Warnings "-register-all".

(** ** JavaScript values *)

Inductive value : Type :=
| JUndefined
| JNull
| JBool (b : bool)
| JNum (n : Z)
| JStr (s : string)
| JArr (xs : list value)
| JObj (props : list (string * value)).

(** An object is the list of its own enumerable properties, in insertion
    order (the order of [JSON.stringify] for property names that are not
    array indices, as are all names of the declared interfaces). *)
Definition object : Type := list (string * value).

Fixpoint own_property (k : string) (o : object) : option value :=
  match o with
  | [] => None
  | (k', v) :: rest => if String.eqb k k' then Some v else own_property k rest
  end.

(** [o.k]: the value of the property, [undefined] when it is absent. *)
Definition get_property (o : object) (k : string) : value :=
  match own_property k o with
  | Some v => v
  | None => JUndefined
  end.

(** [o[k] = v]: an existing property keeps its place, a new one goes last. *)
Fixpoint set_property (k : string) (v : value) (o : object) : object :=
  match o with
  | [] => [(k, v)]
  | (k', v') :: rest =>
      if String.eqb k k' then (k, v) :: rest
      else (k', v') :: set_property k v rest
  end.

(** [{ ...target, ...src }]: the properties of [src] are set one by one. *)
Definition object_spread (target src : object) : object :=
  fold_left (fun acc kv => set_property (fst kv) (snd kv) acc) src target.

(** An object literal [{ ...spread, k1: v1, ..., kn: vn }]. *)
Definition object_literal (spread : object) (fields : list (string * value)) : object :=
  object_spread (object_spread [] spread) fields.

(** [a ?? b] *)
Definition nullish_coalesce (a b : value) : value :=
  match a with
  | JUndefined | JNull => b
  | _ => a
  end.

(** Truthiness of a string and of a number: the empty string and 0 are
    falsy ([undefined] is falsy too; an absent argument is [None]). *)
Definition truthy_string (s : string) : bool := negb (String.eqb s "").

Definition truthy_number (n : Z) : bool := negb (Z.eqb n 0).

(** ** Platform functions the client calls *)

(** [String(n)] / [`${n}`] for an integer-valued number (identifiers,
    season numbers, categories): its decimal digits. This is what the
    platform prints for the integers below 10^21 in magnitude; larger
    numbers, fractions and NaN are outside the model. *)
Definition Number_toString (n : Z) : string :=
  NilZero.string_of_int (Z.to_int n).

Definition N_toString (n : N) : string :=
  NilZero.string_of_uint (N.to_uint n).

Definition join (sep : string) (parts : list string) : string :=
  String.concat sep parts.

Definition hex_digit (upper : bool) (d : N) : ascii :=
  if (d <? 10)%N then ascii_of_N (48 + d)
  else ascii_of_N ((if upper then 55 else 87) + d).

Definition hex_byte (upper : bool) (c : ascii) : string :=
  let n := N_of_ascii c in
  String (hex_digit upper (n / 16)) (String (hex_digit upper (n mod 16)) "").

Definition is_alphanumeric (c : ascii) : bool :=
  let n := N_of_ascii c in
  ((48 <=? n) && (n <=? 57) || (65 <=? n) && (n <=? 90) || (97 <=? n) && (n <=? 122))%N.

Definition one_of (chars : string) (c : ascii) : bool :=
  existsb (Ascii.eqb c) (list_ascii_of_string chars).

Definition percent_encode (c : ascii) : string :=
  String "%" (hex_byte true c).

Fixpoint encode_bytes (f : ascii -> string) (s : string) : string :=
  match s with
  | EmptyString => EmptyString
  | String c rest => f c +:+ encode_bytes f rest
  end.

(** [encodeURIComponent]: everything but the unreserved marks is escaped.
    The strings of the model are the well-formed ones; on a string with a
    lone surrogate the platform function throws, which is outside the
    model. *)
Definition encodeURIComponent (s : string) : string :=
  encode_bytes
    (fun c => if is_alphanumeric c || one_of "-_.!~*'()" c
              then String c "" else percent_encode c) s.

(** The application/x-www-form-urlencoded serialiser of [URLSearchParams]. *)
Definition urlencoded_component (s : string) : string :=
  encode_bytes
    (fun c => if Ascii.eqb c " " then "+"
              else if is_alphanumeric c || one_of "*-._" c
              then String c "" else percent_encode c) s.

Definition URLSearchParams : Type := list (string * string).

Definition URLSearchParams_append (name val : string) (p : URLSearchParams) : URLSearchParams :=
  p ++ [(name, val)].

Definition URLSearchParams_toString (p : URLSearchParams) : string :=
  join "&" (map (fun nv => urlencoded_component (fst nv) +:+ "=" +:+ urlencoded_component (snd nv)) p).

(** [JSON.stringify] *)
Definition dquote : ascii := ascii_of_N 34.
Definition backslash : ascii := ascii_of_N 92.

Definition json_escape (c : ascii) : string :=
  let n := N_of_ascii c in
  if (n =? 8)%N then String backslash "b"
  else if (n =? 9)%N then String backslash "t"
  else if (n =? 10)%N then String backslash "n"
  else if (n =? 12)%N then String backslash "f"
  else if (n =? 13)%N then String backslash "r"
  else if (n =? 34)%N then String backslash (String dquote "")
  else if (n =? 92)%N then String backslash (String backslash "")
  else if (n <? 32)%N then String backslash ("u00" +:+ hex_byte false c)
  else String c "".

Definition QuoteJSONString (s : string) : string :=
  String dquote (encode_bytes json_escape s +:+ String dquote "").

Fixpoint SerializeJSONProperty (v : value) : option string :=
  match v with
  | JUndefined => None
  | JNull => Some "null"
  | JBool b => Some (if b then "true" else "false")
  | JNum n => Some (Number_toString n)
  | JStr s => Some (QuoteJSONString s)
  | JArr xs =>
      Some ("[" +:+ join "," (map (fun x => match SerializeJSONProperty x with
                                           | Some t => t
                                           | None => "null"
                                           end) xs) +:+ "]")
  | JObj props =>
      let members :=
        (fix go (ps : list (string * value)) : list string :=
           match ps with
           | [] => []
           | (k, x) :: rest =>
               match SerializeJSONProperty x with
               | Some t => (QuoteJSONString k +:+ ":" +:+ t) :: go rest
               | None => go rest
               end
           end) props in
      Some ("{" +:+ join "," members +:+ "}")
  end.

Definition JSON_stringify (v : value) : option string := SerializeJSONProperty v.


(** ** Configuration and client objects *)

Inductive ArrService : Type := sonarr | radarr | lidarr | readarr | prowlarr.

Definition ArrService_toString (s : ArrService) : string :=
  match s with
  | sonarr => "sonarr"
  | radarr => "radarr"
  | lidarr => "lidarr"
  | readarr => "readarr"
  | prowlarr => "prowlarr"
  end.

Record ArrConfig : Type := mkConfig { url : string; apiKey : string }.

(** The class an object was created from (its prototype). *)
Inductive ClientClass : Type :=
| ArrClientClass
| SonarrClientClass
| RadarrClientClass
| LidarrClientClass
| ReadarrClientClass
| ProwlarrClientClass.

Record ArrClient : Type := mkClient {
  proto : ClientClass;
  config : ArrConfig;
  serviceName : ArrService;
  apiVersion : string
}.

(** [s.replace(/\/$/, '')]: the pattern is tried at each position from the
    left; it matches where a '/' is followed by the end of the input, and
    that one match is replaced by the empty string. *)
Fixpoint replace_trailing_slash (s : string) : string :=
  match s with
  | EmptyString => EmptyString
  | String c rest =>
      if Ascii.eqb c "/" && String.eqb rest ""
      then EmptyString
      else String c (replace_trailing_slash rest)
  end.

(** [constructor(serviceName, config)] of [ArrClient], run for an object of
    class [new_target]; the field initialiser sets [apiVersion] first. *)
Definition ArrClient_constructor (new_target : ClientClass)
    (serviceName : ArrService) (config : ArrConfig) : ArrClient :=
  {| proto := new_target;
     serviceName := serviceName;
     config := {| url := replace_trailing_slash (url config);
                  apiKey := apiKey config |};
     apiVersion := "v3" |}.

(** [this.apiVersion = v] *)
Definition assign_apiVersion (v : string) (this : ArrClient) : ArrClient :=
  {| proto := proto this; config := config this;
     serviceName := serviceName this; apiVersion := v |}.

Definition SonarrClient_constructor (config : ArrConfig) : ArrClient :=
  ArrClient_constructor SonarrClientClass sonarr config.

Definition RadarrClient_constructor (config : ArrConfig) : ArrClient :=
  ArrClient_constructor RadarrClientClass radarr config.

Definition LidarrClient_constructor (config : ArrConfig) : ArrClient :=
  assign_apiVersion "v1" (ArrClient_constructor LidarrClientClass lidarr config).

Definition ReadarrClient_constructor (config : ArrConfig) : ArrClient :=
  assign_apiVersion "v1" (ArrClient_constructor ReadarrClientClass readarr config).

Definition ProwlarrClient_constructor (config : ArrConfig) : ArrClient :=
  assign_apiVersion "v1" (ArrClient_constructor ProwlarrClientClass prowlarr config).

(** The [new] expressions a caller can write. *)
Inductive NewExpr : Type :=
| new_ArrClient (serviceName : ArrService) (config : ArrConfig)
| new_SonarrClient (config : ArrConfig)
| new_RadarrClient (config : ArrConfig)
| new_LidarrClient (config : ArrConfig)
| new_ReadarrClient (config : ArrConfig)
| new_ProwlarrClient (config : ArrConfig).

Definition construct (e : NewExpr) : ArrClient :=
  match e with
  | new_ArrClient s c => ArrClient_constructor ArrClientClass s c
  | new_SonarrClient c => SonarrClient_constructor c
  | new_RadarrClient c => RadarrClient_constructor c
  | new_LidarrClient c => LidarrClient_constructor c
  | new_ReadarrClient c => ReadarrClient_constructor c
  | new_ProwlarrClient c => ProwlarrClient_constructor c
  end.

Definition supplied_config (e : NewExpr) : ArrConfig :=
  match e with
  | new_ArrClient _ c | new_SonarrClient c | new_RadarrClient c
  | new_LidarrClient c | new_ReadarrClient c | new_ProwlarrClient c => c
  end.

(** ** The transport ([fetch]) and the effects of a call *)

(** The reason a platform promise rejects with (a [TypeError] of [fetch],
    a [SyntaxError] of [response.json()], ...). *)
Record Rejection : Type := mkRejection { name : string; message : string }.

Inductive Settled (A : Type) : Type :=
| Fulfilled (a : A)
| Rejected (r : Rejection).
Arguments Fulfilled {A} a.
Arguments Rejected {A} r.

Record Response : Type := mkResponse {
  status : N;
  statusText : string;
  text : Settled string;   (* what [response.text()] settles to *)
  json : Settled value     (* what [response.json()] settles to *)
}.

(** [response.ok]: the status is in the range 200-299. *)
Definition ok (r : Response) : bool :=
  (200 <=? status r)%N && (status r <=? 299)%N.

(** [RequestInit], as far as the client uses it. *)
Record RequestInit : Type := mkInit {
  method : option string;
  body : option string;
  headers : option (gmap string string)
}.

Definition no_options : RequestInit :=
  {| method := None; body := None; headers := None |}.

(** What [fetch] is called with. *)
Record Request : Type := mkRequest {
  req_url : string;
  req_method : option string;
  req_body : option string;
  req_headers : gmap string string
}.

(** The world outside the client: how the transport answers the n-th
    request, and the requests issued so far. *)
Record World : Type := mkWorld {
  transport : nat -> Request -> Settled Response;
  issued : list Request
}.

(** What a method can throw: the [Error] built by [request], or a platform
    rejection re-raised as it is by [await]. *)
Inductive exn : Type :=
| NewError (message : string)
| Propagated (r : Rejection).

Inductive Completion (A : Type) : Type :=
| Normal (a : A)
| Throw (e : exn).
Arguments Normal {A} a.
Arguments Throw {A} e.

(** A method body: reads and may write [this], talks to the world, and
    returns or throws. *)
Definition M (A : Type) : Type :=
  ArrClient -> World -> Completion A * ArrClient * World.

#[global] Instance M_ret : MRet M := fun A (a : A) this w => (Normal a, this, w).

Definition throw {A} (e : exn) : M A := fun this w => (Throw e, this, w).

#[global] Instance M_bind : MBind M := fun A B (k : A -> M B) (m : M A) this w =>
  match m this w with
  | (Normal a, this', w') => k a this' w'
  | (Throw e, this', w') => (Throw e, this', w')
  end.

Definition try_catch {A} (m : M A) (handler : exn -> M A) : M A :=
  fun this w =>
    match m this w with
    | (Normal a, this', w') => (Normal a, this', w')
    | (Throw e, this', w') => handler e this' w'
    end.

Definition get_this : M ArrClient := fun this w => (Normal this, this, w).

(** [await p] for a platform promise that has settled. *)
Definition await {A} (p : Settled A) : M A :=
  match p with
  | Fulfilled a => mret a
  | Rejected r => throw (Propagated r)
  end.

(** The answer of the transport to the next request, and the world once
    that request has been issued. *)
Definition answer (w : World) (req : Request) : Settled Response :=
  transport w (length (issued w)) req.

Definition record_request (w : World) (req : Request) : World :=
  {| transport := transport w; issued := issued w ++ [req] |}.

(** [fetch(url, init)]: the request is recorded and the transport answers. *)
Definition fetch (req : Request) : M (Settled Response) :=
  fun this w => (Normal (answer w req), this, record_request w req).

Definition completion {A} (r : Completion A * ArrClient * World) : Completion A := r.1.1.
Definition this_after {A} (r : Completion A * ArrClient * World) : ArrClient := r.1.2.
Definition world_after {A} (r : Completion A * ArrClient * World) : World := r.2.

(** ** The request dispatcher *)

(** The header object literal of [request]: the two fixed entries, then the
    spread of the caller's headers over them. *)
Definition request_headers (this : ArrClient) (options : RequestInit) : gmap string string :=
  default ∅ (headers options)
    ∪ <["X-Api-Key" := apiKey (config this)]> {["Content-Type" := "application/json"]}.

Definition request_url (this : ArrClient) (endpoint : string) : string :=
  url (config this) +:+ "/api/" +:+ apiVersion this +:+ endpoint.

(** The [{ ...options, headers }] handed to [fetch] together with the URL. *)
Definition fetch_arguments (this : ArrClient) (endpoint : string) (options : RequestInit) : Request :=
  {| req_url := request_url this endpoint;
     req_method := method options;
     req_body := body options;
     req_headers := request_headers this options |}.

Definition api_error_message (this : ArrClient) (response : Response) (text : string) : string :=
  ArrService_toString (serviceName this) +:+ " API error: "
    +:+ N_toString (status response) +:+ " " +:+ statusText response
    +:+ " - " +:+ text.

Definition request (endpoint : string) (options : RequestInit) : M value :=
  this ← get_this;
  settled ← fetch (fetch_arguments this endpoint options);
  response ← await settled;
  if negb (ok response) then
    text ← await (text response);
    throw (NewError (api_error_message this response text))
  else
    await (json response).

(** ** Methods of [ArrClient] *)

Definition ArrClient_getStatus : M value :=
  request "/system/status" no_options.

Definition ArrClient_getQueue : M value :=
  request "/queue?includeUnknownSeriesItems=true&includeUnknownMovieItems=true" no_options.

(** The query part shared, word for word, by the three [getCalendar]s. *)
Definition calendar_query (start end_ : option string) : string :=
  let params : URLSearchParams := [] in
  let params := match start with
                | Some s => if truthy_string s
                            then URLSearchParams_append "start" s params else params
                | None => params
                end in
  let params := match end_ with
                | Some e => if truthy_string e
                            then URLSearchParams_append "end" e params else params
                | None => params
                end in
  if truthy_string (URLSearchParams_toString params)
  then "?" +:+ URLSearchParams_toString params
  else "".

Definition ArrClient_getCalendar (start end_ : option string) : M value :=
  request ("/calendar" +:+ calendar_query start end_) no_options.

Definition ArrClient_getRootFolders : M value :=
  request "/rootfolder" no_options.

Definition ArrClient_getQualityProfiles : M value :=
  request "/qualityprofile" no_options.

Definition ArrClient_testConnection : M value :=
  try_catch (_ ← ArrClient_getStatus; mret (JBool true))
            (fun _ => mret (JBool false)).

(** A POST with a JSON body. *)
Definition post_json (payload : object) : RequestInit :=
  {| method := Some "POST"; body := JSON_stringify (JObj payload); headers := None |}.

Definition post_empty : RequestInit :=
  {| method := Some "POST"; body := None; headers := None |}.

(** ** Methods of [SonarrClient] *)

Definition SonarrClient_getSeries : M value :=
  request "/series" no_options.

Definition SonarrClient_getSeriesById (id : Z) : M value :=
  request ("/series/" +:+ Number_toString id) no_options.

Definition SonarrClient_searchSeries (term : string) : M value :=
  request ("/series/lookup?term=" +:+ encodeURIComponent term) no_options.

Definition addSeries_payload (series : object) : object :=
  object_literal series
    [("monitored", nullish_coalesce (get_property series "monitored") (JBool true));
     ("seasonFolder", nullish_coalesce (get_property series "seasonFolder") (JBool true));
     ("addOptions", JObj (object_literal [] [("searchForMissingEpisodes", JBool true)]))].

Definition SonarrClient_addSeries (series : object) : M value :=
  request "/series" (post_json (addSeries_payload series)).

Definition SonarrClient_searchMissing (seriesId : Z) : M value :=
  request "/command"
    (post_json (object_literal [] [("name", JStr "SeriesSearch"); ("seriesId", JNum seriesId)])).

Definition SonarrClient_getEpisodes (seriesId : Z) (seasonNumber : option Z) : M value :=
  let url := "/episode?seriesId=" +:+ Number_toString seriesId in
  let url := match seasonNumber with
             | Some n => url +:+ "&seasonNumber=" +:+ Number_toString n
             | None => url
             end in
  request url no_options.

Definition searchEpisode_payload (episodeIds : list Z) : object :=
  object_literal [] [("name", JStr "EpisodeSearch"); ("episodeIds", JArr (map JNum episodeIds))].

Definition SonarrClient_searchEpisode (episodeIds : list Z) : M value :=
  request "/command" (post_json (searchEpisode_payload episodeIds)).

(** ** Methods of [RadarrClient] *)

Definition RadarrClient_getMovies : M value :=
  request "/movie" no_options.

Definition RadarrClient_getMovieById (id : Z) : M value :=
  request ("/movie/" +:+ Number_toString id) no_options.

Definition RadarrClient_searchMovies (term : string) : M value :=
  request ("/movie/lookup?term=" +:+ encodeURIComponent term) no_options.

Definition addMovie_payload (movie : object) : object :=
  object_literal movie
    [("monitored", nullish_coalesce (get_property movie "monitored") (JBool true));
     ("addOptions", JObj (object_literal [] [("searchForMovie", JBool true)]))].

Definition RadarrClient_addMovie (movie : object) : M value :=
  request "/movie" (post_json (addMovie_payload movie)).

Definition RadarrClient_searchMovie (movieId : Z) : M value :=
  request "/command"
    (post_json (object_literal [] [("name", JStr "MoviesSearch"); ("movieIds", JArr [JNum movieId])])).

(** ** Methods of [LidarrClient] *)

Definition LidarrClient_getArtists : M value :=
  request "/artist" no_options.

Definition LidarrClient_getArtistById (id : Z) : M value :=
  request ("/artist/" +:+ Number_toString id) no_options.

Definition LidarrClient_searchArtists (term : string) : M value :=
  request ("/artist/lookup?term=" +:+ encodeURIComponent term) no_options.

Definition addArtist_payload (artist : object) : object :=
  object_literal artist
    [("monitored", nullish_coalesce (get_property artist "monitored") (JBool true));
     ("addOptions", JObj (object_literal [] [("searchForMissingAlbums", JBool true)]))].

Definition LidarrClient_addArtist (artist : object) : M value :=
  request "/artist" (post_json (addArtist_payload artist)).

Definition LidarrClient_getAlbums (artistId : option Z) : M value :=
  let url := match artistId with
             | Some n => if truthy_number n
                         then "/album?artistId=" +:+ Number_toString n else "/album"
             | None => "/album"
             end in
  request url no_options.

Definition LidarrClient_getAlbumById (id : Z) : M value :=
  request ("/album/" +:+ Number_toString id) no_options.

Definition LidarrClient_searchMissingAlbums (artistId : Z) : M value :=
  request "/command"
    (post_json (object_literal [] [("name", JStr "ArtistSearch"); ("artistId", JNum artistId)])).

Definition LidarrClient_searchAlbum (albumId : Z) : M value :=
  request "/command"
    (post_json (object_literal [] [("name", JStr "AlbumSearch"); ("albumIds", JArr [JNum albumId])])).

Definition LidarrClient_getCalendar (start end_ : option string) : M value :=
  request ("/calendar" +:+ calendar_query start end_) no_options.

(** ** Methods of [ReadarrClient] *)

Definition ReadarrClient_getAuthors : M value :=
  request "/author" no_options.

Definition ReadarrClient_getAuthorById (id : Z) : M value :=
  request ("/author/" +:+ Number_toString id) no_options.

Definition ReadarrClient_searchAuthors (term : string) : M value :=
  request ("/author/lookup?term=" +:+ encodeURIComponent term) no_options.

Definition addAuthor_payload (author : object) : object :=
  object_literal author
    [("monitored", nullish_coalesce (get_property author "monitored") (JBool true));
     ("addOptions", JObj (object_literal [] [("searchForMissingBooks", JBool true)]))].

Definition ReadarrClient_addAuthor (author : object) : M value :=
  request "/author" (post_json (addAuthor_payload author)).

Definition ReadarrClient_getBooks (authorId : option Z) : M value :=
  let url := match authorId with
             | Some n => if truthy_number n
                         then "/book?authorId=" +:+ Number_toString n else "/book"
             | None => "/book"
             end in
  request url no_options.

Definition ReadarrClient_getBookById (id : Z) : M value :=
  request ("/book/" +:+ Number_toString id) no_options.

Definition ReadarrClient_searchMissingBooks (authorId : Z) : M value :=
  request "/command"
    (post_json (object_literal [] [("name", JStr "AuthorSearch"); ("authorId", JNum authorId)])).

Definition ReadarrClient_searchBook (bookIds : list Z) : M value :=
  request "/command"
    (post_json (object_literal [] [("name", JStr "BookSearch"); ("bookIds", JArr (map JNum bookIds))])).

Definition ReadarrClient_getCalendar (start end_ : option string) : M value :=
  request ("/calendar" +:+ calendar_query start end_) no_options.

(** ** Methods of [ProwlarrClient] *)

Definition ProwlarrClient_getIndexers : M value :=
  request "/indexer" no_options.

Definition ProwlarrClient_testAllIndexers : M value :=
  request "/indexer/testall" post_empty.

Definition ProwlarrClient_testIndexer (indexerId : Z) : M value :=
  request ("/indexer/" +:+ Number_toString indexerId +:+ "/test") post_empty.

Definition ProwlarrClient_getIndexerStats : M value :=
  request "/indexerstats" no_options.

Definition ProwlarrClient_search (query : string) (categories : option (list Z)) : M value :=
  let params : URLSearchParams := [("query", query)] in
  let params := match categories with
                | Some cs =>
                    fold_left (fun p c => URLSearchParams_append "categories" (Number_toString c) p)
                              cs params
                | None => params
                end in
  request ("/search?" +:+ URLSearchParams_toString params) no_options.

(** ** Method calls *)

(** A method name with its arguments. *)
Inductive Call : Type :=
(* ArrClient *)
| getStatus
| getQueue
| getCalendar (start end_ : option string)
| getRootFolders
| getQualityProfiles
| testConnection
(* SonarrClient *)
| getSeries
| getSeriesById (id : Z)
| searchSeries (term : string)
| addSeries (series : object)
| searchMissing (seriesId : Z)
| getEpisodes (seriesId : Z) (seasonNumber : option Z)
| searchEpisode (episodeIds : list Z)
(* RadarrClient *)
| getMovies
| getMovieById (id : Z)
| searchMovies (term : string)
| addMovie (movie : object)
| searchMovie (movieId : Z)
(* LidarrClient *)
| getArtists
| getArtistById (id : Z)
| searchArtists (term : string)
| addArtist (artist : object)
| getAlbums (artistId : option Z)
| getAlbumById (id : Z)
| searchMissingAlbums (artistId : Z)
| searchAlbum (albumId : Z)
(* ReadarrClient *)
| getAuthors
| getAuthorById (id : Z)
| searchAuthors (term : string)
| addAuthor (author : object)
| getBooks (authorId : option Z)
| getBookById (id : Z)
| searchMissingBooks (authorId : Z)
| searchBook (bookIds : list Z)
(* ProwlarrClient *)
| getIndexers
| testAllIndexers
| testIndexer (indexerId : Z)
| getIndexerStats
| search (query : string) (categories : option (list Z)).

(** The class that declares the method (for [getCalendar], the base class;
    the two overrides are resolved by [lookup_method]). *)
Definition declaring_class (c : Call) : ClientClass :=
  match c with
  | getStatus | getQueue | getCalendar _ _ | getRootFolders
  | getQualityProfiles | testConnection => ArrClientClass
  | getSeries | getSeriesById _ | searchSeries _ | addSeries _
  | searchMissing _ | getEpisodes _ _ | searchEpisode _ => SonarrClientClass
  | getMovies | getMovieById _ | searchMovies _ | addMovie _
  | searchMovie _ => RadarrClientClass
  | getArtists | getArtistById _ | searchArtists _ | addArtist _ | getAlbums _
  | getAlbumById _ | searchMissingAlbums _ | searchAlbum _ => LidarrClientClass
  | getAuthors | getAuthorById _ | searchAuthors _ | addAuthor _ | getBooks _
  | getBookById _ | searchMissingBooks _ | searchBook _ => ReadarrClientClass
  | getIndexers | testAllIndexers | testIndexer _ | getIndexerStats
  | search _ _ => ProwlarrClientClass
  end.

Definition ClientClass_eqb (a b : ClientClass) : bool :=
  match a, b with
  | ArrClientClass, ArrClientClass
  | SonarrClientClass, SonarrClientClass
  | RadarrClientClass, RadarrClientClass
  | LidarrClientClass, LidarrClientClass
  | ReadarrClientClass, ReadarrClientClass
  | ProwlarrClientClass, ProwlarrClientClass => true
  | _, _ => false
  end.

(** An object has the methods of its own class and those of [ArrClient]. *)
Definition understands (cls : ClientClass) (c : Call) : bool :=
  ClientClass_eqb (declaring_class c) ArrClientClass
  || ClientClass_eqb (declaring_class c) cls.

(** Method lookup along the prototype chain of an object of class [cls]. *)
Definition lookup_method (cls : ClientClass) (c : Call) : M value :=
  match c with
  | getStatus => ArrClient_getStatus
  | getQueue => ArrClient_getQueue
  | getCalendar s e =>
      match cls with
      | LidarrClientClass => LidarrClient_getCalendar s e
      | ReadarrClientClass => ReadarrClient_getCalendar s e
      | _ => ArrClient_getCalendar s e
      end
  | getRootFolders => ArrClient_getRootFolders
  | getQualityProfiles => ArrClient_getQualityProfiles
  | testConnection => ArrClient_testConnection
  | getSeries => SonarrClient_getSeries
  | getSeriesById id => SonarrClient_getSeriesById id
  | searchSeries term => SonarrClient_searchSeries term
  | addSeries series => SonarrClient_addSeries series
  | searchMissing id => SonarrClient_searchMissing id
  | getEpisodes id season => SonarrClient_getEpisodes id season
  | searchEpisode ids => SonarrClient_searchEpisode ids
  | getMovies => RadarrClient_getMovies
  | getMovieById id => RadarrClient_getMovieById id
  | searchMovies term => RadarrClient_searchMovies term
  | addMovie movie => RadarrClient_addMovie movie
  | searchMovie id => RadarrClient_searchMovie id
  | getArtists => LidarrClient_getArtists
  | getArtistById id => LidarrClient_getArtistById id
  | searchArtists term => LidarrClient_searchArtists term
  | addArtist artist => LidarrClient_addArtist artist
  | getAlbums id => LidarrClient_getAlbums id
  | getAlbumById id => LidarrClient_getAlbumById id
  | searchMissingAlbums id => LidarrClient_searchMissingAlbums id
  | searchAlbum id => LidarrClient_searchAlbum id
  | getAuthors => ReadarrClient_getAuthors
  | getAuthorById id => ReadarrClient_getAuthorById id
  | searchAuthors term => ReadarrClient_searchAuthors term
  | addAuthor author => ReadarrClient_addAuthor author
  | getBooks id => ReadarrClient_getBooks id
  | getBookById id => ReadarrClient_getBookById id
  | searchMissingBooks id => ReadarrClient_searchMissingBooks id
  | searchBook ids => ReadarrClient_searchBook ids
  | getIndexers => ProwlarrClient_getIndexers
  | testAllIndexers => ProwlarrClient_testAllIndexers
  | testIndexer id => ProwlarrClient_testIndexer id
  | getIndexerStats => ProwlarrClient_getIndexerStats
  | search q cats => ProwlarrClient_search q cats
  end.

(** [client.m(args)]: the method found for the class of [this] is run. *)
Definition not_a_function : Rejection :=
  {| name := "TypeError"; message := "not a function" |}.

Definition invoke (c : Call) : M value :=
  fun this w =>
    if understands (proto this) c
    then lookup_method (proto this) c this w
    else throw (Propagated not_a_function) this w.

(** A caller making one call after the other, whatever each call returns
    or throws. *)
Fixpoint invoke_all (cs : list Call) (this : ArrClient) (w : World) : ArrClient * World :=
  match cs with
  | [] => (this, w)
  | c :: rest =>
      let r := invoke c this w in
      invoke_all rest (this_after r) (world_after r)
  end.

(** ** Definitions that follow the words of the specification *)

(** "Trailing slash stripped": the text without its last character when
    that character is a '/', the text itself otherwise. *)
Definition ends_with_slash (s : string) : bool :=
  match String.get (String.length s - 1) s with
  | Some c => Ascii.eqb c "/"
  | None => false
  end.

Definition slash_trimmed (s : string) : string :=
  if ends_with_slash s then String.substring 0 (String.length s - 1) s else s.

(** "Slash-trimmed" read for a text "ending in one or more '/'": the text
    without any of the '/' it ends in. *)
Fixpoint all_slashes_trimmed (s : string) : string :=
  match s with
  | EmptyString => EmptyString
  | String c rest =>
      match all_slashes_trimmed rest with
      | EmptyString => if Ascii.eqb c "/" then EmptyString else String c EmptyString
      | trimmed => String c trimmed
      end
  end.

(** "[v3] for the default-constructed client and [v1] for the three
    variants that override it". *)
Definition specified_version (cls : ClientClass) : string :=
  match cls with
  | LidarrClientClass | ReadarrClientClass | ProwlarrClientClass => "v1"
  | ArrClientClass | SonarrClientClass | RadarrClientClass => "v3"
  end.

(** "Converts non-success responses into a uniform failure": what one
    dispatcher call completes with, given the answer of the transport. *)
Definition dispatch_completion (this : ArrClient) (settled : Settled Response) : Completion value :=
  match settled with
  | Rejected r => Throw (Propagated r)
  | Fulfilled response =>
      if ok response then
        match json response with
        | Fulfilled v => Normal v
        | Rejected r => Throw (Propagated r)
        end
      else
        match text response with
        | Fulfilled t => Throw (NewError (api_error_message this response t))
        | Rejected r => Throw (Propagated r)
        end
  end.

Definition is_normal {A} (c : Completion A) : bool :=
  match c with
  | Normal _ => true
  | Throw _ => false
  end.


(** A call swallows an error when the one request it issued was answered
    with a failure and the call returned normally all the same. *)
Definition swallows (cls : ClientClass) (c : Call) : Prop :=
  exists (this : ArrClient) (w : World) (r : Request) (e : exn) (v : value),
    proto this = cls
    /\ issued (world_after (invoke c this w)) = issued w ++ [r]
    /\ dispatch_completion this (answer w r) = Throw e
    /\ completion (invoke c this w) = Normal v.

(** The endpoint of each call: the first argument its method hands to the
    dispatcher (for testConnection, that of the status call it makes). *)
Definition endpoint_of (c : Call) : string :=
  match c with
  | getStatus | testConnection => "/system/status"
  | getQueue => "/queue?includeUnknownSeriesItems=true&includeUnknownMovieItems=true"
  | getCalendar start end_ => "/calendar" +:+ calendar_query start end_
  | getRootFolders => "/rootfolder"
  | getQualityProfiles => "/qualityprofile"
  | getSeries => "/series"
  | getSeriesById id => "/series/" +:+ Number_toString id
  | searchSeries term => "/series/lookup?term=" +:+ encodeURIComponent term
  | addSeries _ => "/series"
  | getEpisodes seriesId seasonNumber =>
      match seasonNumber with
      | Some n =>
          "/episode?seriesId=" +:+ Number_toString seriesId
            +:+ "&seasonNumber=" +:+ Number_toString n
      | None => "/episode?seriesId=" +:+ Number_toString seriesId
      end
  | getMovies => "/movie"
  | getMovieById id => "/movie/" +:+ Number_toString id
  | searchMovies term => "/movie/lookup?term=" +:+ encodeURIComponent term
  | addMovie _ => "/movie"
  | getArtists => "/artist"
  | getArtistById id => "/artist/" +:+ Number_toString id
  | searchArtists term => "/artist/lookup?term=" +:+ encodeURIComponent term
  | addArtist _ => "/artist"
  | getAlbums artistId =>
      match artistId with
      | Some n => if Z.eqb n 0 then "/album" else "/album?artistId=" +:+ Number_toString n
      | None => "/album"
      end
  | getAlbumById id => "/album/" +:+ Number_toString id
  | getAuthors => "/author"
  | getAuthorById id => "/author/" +:+ Number_toString id
  | searchAuthors term => "/author/lookup?term=" +:+ encodeURIComponent term
  | addAuthor _ => "/author"
  | getBooks authorId =>
      match authorId with
      | Some n => if Z.eqb n 0 then "/book" else "/book?authorId=" +:+ Number_toString n
      | None => "/book"
      end
  | getBookById id => "/book/" +:+ Number_toString id
  | searchMissing _ | searchEpisode _ | searchMovie _ | searchMissingAlbums _
  | searchAlbum _ | searchMissingBooks _ | searchBook _ => "/command"
  | getIndexers => "/indexer"
  | testAllIndexers => "/indexer/testall"
  | testIndexer indexerId => "/indexer/" +:+ Number_toString indexerId +:+ "/test"
  | getIndexerStats => "/indexerstats"
  | search query categories =>
      "/search?"
        +:+ URLSearchParams_toString
              (("query", query)
                 :: match categories with
                    | Some cs => map (fun c => ("categories", Number_toString c)) cs
                    | None => []
                    end)
  end.

(** A POST, to [endpoint], of the JSON text of the object [payload], with
    the headers the dispatcher sends when the caller gives none. *)
Definition post_request (this : ArrClient) (endpoint : string) (payload : object) : Request :=
  {| req_url := url (config this) +:+ "/api/" +:+ apiVersion this +:+ endpoint;
     req_method := Some "POST";
     req_body := JSON_stringify (JObj payload);
     req_headers := request_headers this no_options |}.

(** An optional string argument counts when it is given and not empty. *)
Definition given_nonempty (a : option string) : option string :=
  match a with
  | Some s => if String.eqb s "" then None else Some s
  | None => None
  end.

(** ** Sample clients, answers and worlds *)

Definition sample_config : ArrConfig :=
  {| url := "http://nas.local:8989/"; apiKey := "0123456789abcdef" |}.

Definition sample_sonarr : ArrClient := construct (new_SonarrClient sample_config).
Definition sample_radarr : ArrClient := construct (new_RadarrClient sample_config).
Definition sample_lidarr : ArrClient := construct (new_LidarrClient sample_config).
Definition sample_readarr : ArrClient := construct (new_ReadarrClient sample_config).

(** A world in which nothing was issued yet and the transport always gives
    the same answer. *)
Definition world_answering (a : Settled Response) : World :=
  {| transport := fun _ _ => a; issued := [] |}.

Definition not_json : Rejection :=
  {| name := "SyntaxError"; message := "Unexpected token" |}.

Definition connection_refused : Rejection :=
  {| name := "TypeError"; message := "fetch failed" |}.

Definition response_500_boom : Response :=
  {| status := 500; statusText := "Internal Server Error";
     text := Fulfilled "boom"; json := Rejected not_json |}.

Definition response_200 (v : value) : Response :=
  {| status := 200; statusText := "OK";
     text := Fulfilled ""; json := Fulfilled v |}.

Definition series_without_flags : object :=
  [("tvdbId", JNum 1); ("rootFolderPath", JStr "/tv"); ("qualityProfileId", JNum 2)].

Definition series_with_seasonFolder_off : object :=
  [("tvdbId", JNum 1); ("rootFolderPath", JStr "/tv"); ("qualityProfileId", JNum 2);
   ("seasonFolder", JBool false)].

Definition movie_unmonitored : object :=
  [("tmdbId", JNum 1); ("rootFolderPath", JStr "/movies"); ("qualityProfileId", JNum 2);
   ("monitored", JBool false)].

Definition artist_with_addOptions : object :=
  [("foreignArtistId", JStr "f59c5520"); ("rootFolderPath", JStr "/music");
   ("qualityProfileId", JNum 1); ("metadataProfileId", JNum 1);
   ("addOptions", JObj [("searchForMissingAlbums", JBool false)])].

Definition command_resource : value :=
  JObj [("id", JNum 7); ("name", JStr "EpisodeSearch"); ("status", JStr "queued")].

(** ** The earlier revision of the client

    The second source file is an earlier revision of the same client; its
    dispatcher, constructors and payloads are the same, and three of its
    methods await the dispatcher and return nothing. *)
Module Earlier.

Definition SonarrClient_searchMissing (seriesId : Z) : M value :=
  _ ← request "/command"
        (post_json (object_literal [] [("name", JStr "SeriesSearch"); ("seriesId", JNum seriesId)]));
  mret JUndefined.

Definition RadarrClient_searchMovie (movieId : Z) : M value :=
  _ ← request "/command"
        (post_json (object_literal [] [("name", JStr "MoviesSearch"); ("movieIds", JArr [JNum movieId])]));
  mret JUndefined.

Definition ProwlarrClient_testAllIndexers : M value :=
  _ ← request "/indexer/testall" post_empty;
  mret JUndefined.

End Earlier.

(** ** Vocabulary of the further properties *)

(** The calls whose request is a POST, and those among them with a body. *)
Definition posts (c : Call) : bool :=
  match c with
  | addSeries _ | addMovie _ | addArtist _ | addAuthor _
  | searchMissing _ | searchEpisode _ | searchMovie _
  | searchMissingAlbums _ | searchAlbum _ | searchMissingBooks _ | searchBook _
  | testAllIndexers | testIndexer _ => true
  | _ => false
  end.

Definition posts_body (c : Call) : bool :=
  match c with
  | testAllIndexers | testIndexer _ => false
  | _ => posts c
  end.

(** The same client with another API key. *)
Definition with_apiKey (k : string) (this : ArrClient) : ArrClient :=
  {| proto := proto this;
     config := {| url := url (config this); apiKey := k |};
     serviceName := serviceName this;
     apiVersion := apiVersion this |}.

(** The requests a call issues when it is made on its own. *)
Definition requests_of (this : ArrClient) (c : Call) : list Request :=
  issued (world_after (invoke c this (world_answering (Rejected connection_refused)))).

(** The status is one of 200..299. *)
Definition success_status (n : N) : Prop := (200 <= n)%N /\ (n <= 299)%N.

(** * Properties *)

(** ** Strings *)

Lemma append_cons (c : ascii) (a b : string) :
  String c a +:+ b = String c (a +:+ b).
Proof. reflexivity. Qed.

Lemma append_nil_l (a : string) : "" +:+ a = a.
Proof. reflexivity. Qed.

Lemma append_assoc (a b c : string) : (a +:+ b) +:+ c = a +:+ (b +:+ c).
Proof.
  induction a as [|x a IH]; [reflexivity |].
  rewrite !append_cons. now rewrite IH.
Qed.

Lemma append_nil_r (a : string) : a +:+ "" = a.
Proof.
  induction a as [|x a IH]; [reflexivity |].
  rewrite append_cons. now rewrite IH.
Qed.

Lemma eqb_append_slash_nil (p : string) : String.eqb (p +:+ "/") "" = false.
Proof. destruct p; reflexivity. Qed.

Lemma replace_trailing_slash_append (p : string) :
  replace_trailing_slash (p +:+ "/") = p.
Proof.
  induction p as [|c p IH]; [reflexivity |].
  rewrite append_cons. simpl.
  rewrite eqb_append_slash_nil, andb_false_r. now rewrite IH.
Qed.

Lemma replace_trailing_slash_unchanged (s : string) :
  (forall p, s <> p +:+ "/") -> replace_trailing_slash s = s.
Proof.
  induction s as [|c s IH]; intros H; simpl; [reflexivity |].
  destruct (Ascii.eqb c "/" && String.eqb s "") eqn:E.
  - apply andb_true_iff in E as [Ec Es].
    apply Ascii.eqb_eq in Ec. apply String.eqb_eq in Es. subst.
    exfalso. apply (H ""). reflexivity.
  - f_equal. apply IH. intros p Hp. apply (H (String c p)).
    rewrite append_cons. now rewrite Hp.
Qed.

Lemma ends_with_slash_cons (c : ascii) (s : string) :
  ends_with_slash (String c s) =
  if String.eqb s "" then Ascii.eqb c "/" else ends_with_slash s.
Proof.
  unfold ends_with_slash. destruct s as [|d s]; simpl; [reflexivity |].
  now rewrite Nat.sub_0_r.
Qed.

Lemma ends_with_slash_append (p : string) : ends_with_slash (p +:+ "/") = true.
Proof.
  induction p as [|c p IH]; [reflexivity |].
  now rewrite append_cons, ends_with_slash_cons, eqb_append_slash_nil.
Qed.

Lemma not_ends_with_slash (s : string) :
  ends_with_slash s = false -> forall p, s <> p +:+ "/".
Proof.
  intros H p ->. rewrite ends_with_slash_append in H. discriminate.
Qed.

Lemma replace_trailing_slash_trimmed (s : string) :
  replace_trailing_slash s = slash_trimmed s.
Proof.
  induction s as [|c s IH]; [reflexivity |].
  unfold slash_trimmed. rewrite ends_with_slash_cons. simpl replace_trailing_slash.
  destruct s as [|d s].
  - simpl. destruct (Ascii.eqb c "/"); reflexivity.
  - rewrite andb_false_r. rewrite IH. unfold slash_trimmed.
    cbn [String.eqb]. destruct (ends_with_slash (String d s)); [| reflexivity].
    cbn [String.length]. rewrite !Nat.sub_succ, !Nat.sub_0_r. reflexivity.
Qed.

(** ** One dispatcher call *)

Lemma request_run (endpoint : string) (options : RequestInit) (this : ArrClient) (w : World) :
  request endpoint options this w =
  (dispatch_completion this (answer w (fetch_arguments this endpoint options)),
   this,
   record_request w (fetch_arguments this endpoint options)).
Proof.
  unfold request, mbind, M_bind, get_this, fetch, dispatch_completion.
  destruct (answer w (fetch_arguments this endpoint options)) as [response | r];
    [| reflexivity].
  cbn [await mret M_ret].
  destruct (ok response); cbn [negb].
  - destruct (json response); reflexivity.
  - destruct (text response); reflexivity.
Qed.

(** Every method but [testConnection] is one dispatcher call, whose
    endpoint and options depend on the arguments of the call only; no
    method passes headers of its own. *)
Lemma lookup_method_is_request (cls : ClientClass) (c : Call) :
  c <> testConnection ->
  exists endpoint options,
    lookup_method cls c = request endpoint options /\ headers options = None.
Proof.
  destruct c; intros H; try congruence; try (destruct cls);
    eexists; eexists; split; reflexivity.
Qed.

Lemma testConnection_run (this : ArrClient) (w : World) :
  let req := fetch_arguments this "/system/status" no_options in
  ArrClient_testConnection this w =
  (Normal (JBool (is_normal (dispatch_completion this (answer w req)))),
   this, record_request w req).
Proof.
  unfold ArrClient_testConnection, try_catch, ArrClient_getStatus, mbind, M_bind.
  rewrite request_run.
  destruct (dispatch_completion _ _); reflexivity.
Qed.

Lemma testConnection_or_not (c : Call) : c = testConnection \/ c <> testConnection.
Proof. destruct c; (left; reflexivity) || (right; discriminate). Qed.

(** Whatever the call, exactly one request is issued, built by the
    dispatcher from an endpoint and options fixed by the call; [this] is
    left as it was. *)
Lemma invoke_run (cls : ClientClass) (c : Call) :
  understands cls c = true ->
  exists endpoint options,
    headers options = None /\
    forall (this : ArrClient) (w : World),
      proto this = cls ->
      let req := fetch_arguments this endpoint options in
      this_after (invoke c this w) = this
      /\ world_after (invoke c this w) = record_request w req
      /\ completion (invoke c this w) =
         match c with
         | testConnection =>
             Normal (JBool (is_normal (dispatch_completion this (answer w req))))
         | _ => dispatch_completion this (answer w req)
         end.
Proof.
  intros Hu.
  destruct (testConnection_or_not c) as [-> | Hc].
  - exists "/system/status", no_options. split; [reflexivity |].
    intros this w Hp req.
    unfold invoke. rewrite Hp, Hu. cbn [lookup_method].
    rewrite testConnection_run. repeat split; reflexivity.
  - destruct (lookup_method_is_request cls c Hc) as (endpoint & options & E & Hh).
    exists endpoint, options. split; [exact Hh |]. intros this w Hp req.
    unfold invoke. rewrite Hp, Hu, E, request_run. fold req.
    repeat split. destruct c; try congruence; reflexivity.
Qed.

(** ** Construction *)

Lemma construct_url (e : NewExpr) :
  url (config (construct e)) = replace_trailing_slash (url (supplied_config e)).
Proof. destruct e; reflexivity. Qed.

Lemma construct_apiKey (e : NewExpr) :
  apiKey (config (construct e)) = apiKey (supplied_config e).
Proof. destruct e; reflexivity. Qed.

Lemma construct_apiVersion (e : NewExpr) :
  apiVersion (construct e) = specified_version (proto (construct e)).
Proof. destruct e; reflexivity. Qed.

Lemma issued_record_request (w : World) (req : Request) :
  issued (record_request w req) = issued w ++ [req].
Proof. reflexivity. Qed.

Lemma map_req_url_snoc (l : list Request) (req : Request) :
  map req_url (l ++ [req]) = map req_url l ++ [req_url req].
Proof. now rewrite map_app. Qed.

(** ** The URL of a request *)

Lemma request_url_of_call (cls : ClientClass) (c : Call) :
  understands cls c = true ->
  exists endpoint : string,
    forall (this : ArrClient) (w : World),
      proto this = cls ->
      map req_url (issued (world_after (invoke c this w))) =
      map req_url (issued w) ++
        [url (config this) +:+ "/api/" +:+ apiVersion this +:+ endpoint].
Proof.
  intros Hu. destruct (invoke_run cls c Hu) as (endpoint & options & _ & H).
  exists endpoint. intros this w Hp.
  destruct (H this w Hp) as (_ & Hw & _).
  now rewrite Hw, issued_record_request, map_req_url_snoc.
Qed.

Lemma append_categories (cs : list Z) (params : URLSearchParams) :
  fold_left (fun p c => URLSearchParams_append "categories" (Number_toString c) p) cs params =
  params ++ map (fun c => ("categories", Number_toString c)) cs.
Proof.
  revert params. induction cs as [|c cs IH]; intros params; simpl.
  - now rewrite app_nil_r.
  - rewrite IH. unfold URLSearchParams_append. now rewrite <- app_assoc.
Qed.

Lemma lookup_method_endpoint (cls : ClientClass) (c : Call) :
  c <> testConnection ->
  exists options, lookup_method cls c = request (endpoint_of c) options.
Proof.
  destruct c; intros H; try congruence; try (destruct cls); eexists;
    unfold lookup_method, endpoint_of, SonarrClient_getEpisodes, LidarrClient_getAlbums,
      ReadarrClient_getBooks, ProwlarrClient_search, truthy_number;
    try reflexivity;
    repeat match goal with
           | |- context [match ?x with Some _ => _ | None => _ end] => destruct x
           | |- context [Z.eqb ?n 0] => destruct (Z.eqb n 0)
           end;
    rewrite ?append_categories; reflexivity.
Qed.

Lemma request_url_of_call_exact (cls : ClientClass) (c : Call)
    (this : ArrClient) (w : World) :
  understands cls c = true ->
  proto this = cls ->
  map req_url (issued (world_after (invoke c this w))) =
  map req_url (issued w) ++
    [url (config this) +:+ "/api/" +:+ apiVersion this +:+ endpoint_of c].
Proof.
  intros Hu Hp. destruct (testConnection_or_not c) as [-> | Hc].
  - unfold invoke. rewrite Hp, Hu. cbn [lookup_method].
    rewrite testConnection_run. cbn [world_after snd].
    now rewrite issued_record_request, map_req_url_snoc.
  - destruct (lookup_method_endpoint cls c Hc) as (options & E).
    unfold invoke. rewrite Hp, Hu, E, request_run. cbn [world_after snd].
    now rewrite issued_record_request, map_req_url_snoc.
Qed.

(** C1, as the code has it. For every client and every method it has, the
    call issues one request, whose URL is exactly the base URL without its
    last character when that is a '/' (one slash is removed, not every
    one), followed by "/api/", the version of the class ("v3" for
    ArrClient, SonarrClient and RadarrClient, "v1" for LidarrClient,
    ReadarrClient and ProwlarrClient) and the endpoint of the call. *)
Theorem request_url_is_base_api_version_endpoint (cls : ClientClass) (c : Call) :
  understands cls c = true ->
  forall (e : NewExpr) (w : World),
    proto (construct e) = cls ->
    map req_url (issued (world_after (invoke c (construct e) w))) =
    map req_url (issued w) ++
      [slash_trimmed (url (supplied_config e)) +:+ "/api/"
         +:+ specified_version cls +:+ endpoint_of c].
Proof.
  intros Hu e w Hp.
  rewrite (request_url_of_call_exact cls c (construct e) w Hu Hp).
  now rewrite construct_url, construct_apiVersion, replace_trailing_slash_trimmed, Hp.
Qed.

(** C1 as stated fails for a base URL ending in two slashes: only one is
    removed, and the URL of the request has "//" before "api". *)
Lemma request_url_keeps_second_slash :
  all_slashes_trimmed "http://nas.local:8686//" = "http://nas.local:8686"
  /\ understands LidarrClientClass (getArtistById 7) = true
  /\ map req_url
       (issued (world_after
          (invoke (getArtistById 7)
             (construct (new_LidarrClient (mkConfig "http://nas.local:8686//" "k")))
             (world_answering (Rejected connection_refused)))))
     = ["http://nas.local:8686//api/v1/artist/7"]
  /\ "http://nas.local:8686//api/v1/artist/7"
     <> all_slashes_trimmed "http://nas.local:8686//" +:+ "/api/" +:+ "v1" +:+ "/artist/7".
Proof.
  repeat apply conj; try reflexivity. vm_compute. discriminate.
Qed.

Example sonarr_request_url :
  map req_url (issued (world_after (invoke (getSeriesById 42) sample_sonarr
                                      (world_answering (Rejected connection_refused)))))
  = ["http://nas.local:8989/api/v3/series/42"].
Proof. reflexivity. Qed.

Example readarr_request_url :
  map req_url (issued (world_after (invoke (searchAuthors "Ursula K. Le Guin") sample_readarr
                                      (world_answering (Rejected connection_refused)))))
  = ["http://nas.local:8989/api/v1/author/lookup?term=Ursula%20K.%20Le%20Guin"].
Proof. reflexivity. Qed.

Lemma request_url_is_base_api_version_endpoint_witness :
  map req_url (issued (world_after (invoke (getArtistById 7) sample_lidarr
                                      (world_answering (Rejected connection_refused))))) =
  map req_url [] ++
    [slash_trimmed "http://nas.local:8989/" +:+ "/api/" +:+ "v1" +:+ "/artist/7"].
Proof.
  exact (request_url_is_base_api_version_endpoint LidarrClientClass (getArtistById 7)
           eq_refl (new_LidarrClient sample_config)
           (world_answering (Rejected connection_refused)) eq_refl).
Defined.

(** ** The headers of a request *)

Lemma fixed_headers_lookup (key k : string) :
  (<["X-Api-Key" := key]> {["Content-Type" := "application/json"]} : gmap string string) !! k =
  if decide (k = "X-Api-Key") then Some key
  else if decide (k = "Content-Type") then Some "application/json"
  else None.
Proof.
  destruct (decide (k = "X-Api-Key")) as [-> | Hk].
  - apply lookup_insert_eq.
  - rewrite lookup_insert_ne by congruence.
    destruct (decide (k = "Content-Type")) as [-> | Hk'].
    + apply lookup_singleton_eq.
    + apply lookup_singleton_ne. congruence.
Qed.

Lemma request_headers_lookup (this : ArrClient) (options : RequestInit) (k : string) :
  request_headers this options !! k =
  match headers options ≫= (fun supplied => supplied !! k) with
  | Some v => Some v
  | None =>
      if decide (k = "X-Api-Key") then Some (apiKey (config this))
      else if decide (k = "Content-Type") then Some "application/json"
      else None
  end.
Proof.
  unfold request_headers. rewrite lookup_union, fixed_headers_lookup.
  destruct (headers options) as [supplied |]; simpl.
  - destruct (supplied !! k) as [v |].
    + destruct (decide _); [reflexivity |]. destruct (decide _); reflexivity.
    + apply (left_id None _).
  - rewrite lookup_empty. apply (left_id None _).
Qed.

(** C2. The headers of every request the dispatcher issues are the
    caller-supplied ones where there are any, and otherwise the fixed pair
    Content-Type: application/json and X-Api-Key: the configured key (so a
    caller-supplied header wins on a collision); and the request of every
    method of every client carries the configured key as X-Api-Key (and
    the JSON content type), since no method supplies headers. *)
Theorem request_headers_fixed_pair_and_api_key :
  (forall (endpoint : string) (options : RequestInit) (this : ArrClient) (w : World),
      exists req : Request,
        issued (world_after (request endpoint options this w)) = issued w ++ [req]
        /\ forall k : string,
            req_headers req !! k =
            match headers options ≫= (fun supplied => supplied !! k) with
            | Some v => Some v
            | None =>
                if decide (k = "X-Api-Key") then Some (apiKey (config this))
                else if decide (k = "Content-Type") then Some "application/json"
                else None
            end)
  /\ (forall (e : NewExpr) (c : Call) (w : World),
         understands (proto (construct e)) c = true ->
         exists req : Request,
           issued (world_after (invoke c (construct e) w)) = issued w ++ [req]
           /\ req_headers req !! "X-Api-Key" = Some (apiKey (supplied_config e))
           /\ req_headers req !! "Content-Type" = Some "application/json").
Proof.
  split.
  - intros endpoint options this w.
    exists (fetch_arguments this endpoint options). rewrite request_run.
    split; [reflexivity |]. intros k. apply request_headers_lookup.
  - intros e c w Hu.
    destruct (invoke_run _ c Hu) as (endpoint & options & Hh & H).
    destruct (H (construct e) w eq_refl) as (_ & Hw & _).
    exists (fetch_arguments (construct e) endpoint options).
    rewrite Hw. split; [reflexivity |].
    cbn [fetch_arguments req_headers]. rewrite !request_headers_lookup, Hh.
    rewrite construct_apiKey. split; reflexivity.
Qed.

Lemma request_headers_fixed_pair_and_api_key_witness :
  exists req : Request,
    issued (world_after (invoke (addMovie movie_unmonitored) sample_radarr
                           (world_answering (Rejected connection_refused))))
      = [] ++ [req]
    /\ req_headers req !! "X-Api-Key" = Some "0123456789abcdef"
    /\ req_headers req !! "Content-Type" = Some "application/json".
Proof.
  apply (proj2 request_headers_fixed_pair_and_api_key
           (new_RadarrClient sample_config) (addMovie movie_unmonitored)
           (world_answering (Rejected connection_refused))).
  reflexivity.
Defined.

(** ** Objects *)

Lemma own_property_set_eq (k : string) (v : value) (o : object) :
  own_property k (set_property k v o) = Some v.
Proof.
  induction o as [|[k' v'] o IH]; simpl.
  - now rewrite String.eqb_refl.
  - destruct (String.eqb k k') eqn:E; simpl.
    + now rewrite String.eqb_refl.
    + now rewrite E.
Qed.

Lemma own_property_set_ne (k k' : string) (v : value) (o : object) :
  k <> k' -> own_property k' (set_property k v o) = own_property k' o.
Proof.
  intros Hne. induction o as [|[k0 v0] o IH]; simpl.
  - destruct (String.eqb k' k) eqn:E; [| reflexivity].
    apply String.eqb_eq in E. congruence.
  - destruct (String.eqb k k0) eqn:E; simpl.
    + apply String.eqb_eq in E. subst k0.
      destruct (String.eqb k' k) eqn:E'; [| reflexivity].
      apply String.eqb_eq in E'. congruence.
    + now rewrite IH.
Qed.

Lemma set_property_keys (k : string) (v : value) (o : object) :
  map fst (set_property k v o) =
  if bool_decide (k ∈ map fst o) then map fst o else map fst o ++ [k].
Proof.
  induction o as [|[k' v'] o IH]; simpl.
  - reflexivity.
  - destruct (String.eqb k k') eqn:E.
    + apply String.eqb_eq in E. subst k'. simpl.
      rewrite bool_decide_eq_true_2 by apply list_elem_of_here. reflexivity.
    + apply String.eqb_neq in E. simpl. rewrite IH.
      destruct (bool_decide (k ∈ map fst o)) eqn:D.
      * apply bool_decide_eq_true_1 in D.
        rewrite bool_decide_eq_true_2 by (now apply list_elem_of_further).
        reflexivity.
      * apply bool_decide_eq_false_1 in D.
        rewrite bool_decide_eq_false_2; [reflexivity |].
        intros [? | ?]%elem_of_cons; congruence.
Qed.

Lemma set_property_NoDup (k : string) (v : value) (o : object) :
  NoDup (map fst o) -> NoDup (map fst (set_property k v o)).
Proof.
  intros H. rewrite set_property_keys.
  destruct (bool_decide (k ∈ map fst o)) eqn:D; [exact H |].
  apply bool_decide_eq_false_1 in D.
  apply NoDup_app. split; [exact H |]. split.
  - intros x Hx [-> | Hin]%elem_of_cons; [contradiction |].
    now apply not_elem_of_nil in Hin.
  - apply NoDup_singleton.
Qed.

Lemma object_spread_NoDup (src target : object) :
  NoDup (map fst target) -> NoDup (map fst (object_spread target src)).
Proof.
  unfold object_spread. revert target.
  induction src as [|[k v] src IH]; intros target H; simpl; [exact H |].
  apply IH. now apply set_property_NoDup.
Qed.

(** An object built by a literal never has two properties of one name. *)
Lemma object_literal_NoDup (spread : object) (fields : list (string * value)) :
  NoDup (map fst (object_literal spread fields)).
Proof.
  unfold object_literal. apply object_spread_NoDup, object_spread_NoDup.
  apply NoDup_nil_2.
Qed.

Lemma get_property_absent (o : object) (k : string) :
  own_property k o = None -> get_property o k = JUndefined.
Proof. unfold get_property. now intros ->. Qed.

Lemma get_property_present (o : object) (k : string) (v : value) :
  own_property k o = Some v -> get_property o k = v.
Proof. unfold get_property. now intros ->. Qed.

(** ** The payloads of the add calls *)

Ltac payload_lookup :=
  unfold addSeries_payload, addMovie_payload, addArtist_payload, addAuthor_payload,
    object_literal;
  unfold object_spread; cbn [fold_left fst snd];
  repeat first [ rewrite own_property_set_eq
               | rewrite own_property_set_ne by discriminate ].

Ltac run_invoke Hp :=
  unfold invoke; rewrite Hp; cbn [understands declaring_class ClientClass_eqb orb lookup_method];
  unfold SonarrClient_addSeries, RadarrClient_addMovie, LidarrClient_addArtist,
    ReadarrClient_addAuthor;
  rewrite request_run; reflexivity.

Lemma invoke_addSeries (this : ArrClient) (w : World) (series : object) :
  proto this = SonarrClientClass ->
  issued (world_after (invoke (addSeries series) this w)) =
  issued w ++ [post_request this "/series" (addSeries_payload series)].
Proof. intros Hp. run_invoke Hp. Qed.

Lemma invoke_addMovie (this : ArrClient) (w : World) (movie : object) :
  proto this = RadarrClientClass ->
  issued (world_after (invoke (addMovie movie) this w)) =
  issued w ++ [post_request this "/movie" (addMovie_payload movie)].
Proof. intros Hp. run_invoke Hp. Qed.

Lemma invoke_addArtist (this : ArrClient) (w : World) (artist : object) :
  proto this = LidarrClientClass ->
  issued (world_after (invoke (addArtist artist) this w)) =
  issued w ++ [post_request this "/artist" (addArtist_payload artist)].
Proof. intros Hp. run_invoke Hp. Qed.

Lemma invoke_addAuthor (this : ArrClient) (w : World) (author : object) :
  proto this = ReadarrClientClass ->
  issued (world_after (invoke (addAuthor author) this w)) =
  issued w ++ [post_request this "/author" (addAuthor_payload author)].
Proof. intros Hp. run_invoke Hp. Qed.

Lemma monitored_default (payload_of : object -> object) (entity : object) :
  (forall o, own_property "monitored" (payload_of o) =
             Some (nullish_coalesce (get_property o "monitored") (JBool true))) ->
  (own_property "monitored" entity = None ->
   own_property "monitored" (payload_of entity) = Some (JBool true))
  /\ (forall b : bool,
        own_property "monitored" entity = Some (JBool b) ->
        own_property "monitored" (payload_of entity) = Some (JBool b)).
Proof.
  intros H. split.
  - intros Ha. now rewrite H, (get_property_absent _ _ Ha).
  - intros b Hb. now rewrite H, (get_property_present _ _ _ Hb).
Qed.

(** C3, as the code has it. addSeries, addMovie, addArtist and addAuthor
    each issue one POST to their endpoint whose body is the JSON text of a
    payload in which
    monitored is true when the input has no monitored field, and is the
    input's own boolean when it has one (so an explicit monitored: false
    stays false); addSeries treats seasonFolder in the same way: true when
    the input has no seasonFolder field, the input's own boolean
    otherwise; and addOptions.searchForMissingEpisodes, respectively
    addOptions.searchForMovie, is true. *)
Theorem add_payload_defaults :
  (forall (this : ArrClient) (w : World) (series : object),
      proto this = SonarrClientClass ->
      issued (world_after (invoke (addSeries series) this w)) =
        issued w ++ [post_request this "/series" (addSeries_payload series)]
      /\ (own_property "monitored" series = None ->
          own_property "monitored" (addSeries_payload series) = Some (JBool true))
      /\ (forall b : bool,
            own_property "monitored" series = Some (JBool b) ->
            own_property "monitored" (addSeries_payload series) = Some (JBool b))
      /\ (own_property "seasonFolder" series = None ->
          own_property "seasonFolder" (addSeries_payload series) = Some (JBool true))
      /\ (forall b : bool,
            own_property "seasonFolder" series = Some (JBool b) ->
            own_property "seasonFolder" (addSeries_payload series) = Some (JBool b))
      /\ own_property "addOptions" (addSeries_payload series) =
           Some (JObj [("searchForMissingEpisodes", JBool true)]))
  /\ (forall (this : ArrClient) (w : World) (movie : object),
        proto this = RadarrClientClass ->
        issued (world_after (invoke (addMovie movie) this w)) =
          issued w ++ [post_request this "/movie" (addMovie_payload movie)]
        /\ (own_property "monitored" movie = None ->
            own_property "monitored" (addMovie_payload movie) = Some (JBool true))
        /\ (forall b : bool,
              own_property "monitored" movie = Some (JBool b) ->
              own_property "monitored" (addMovie_payload movie) = Some (JBool b))
        /\ own_property "addOptions" (addMovie_payload movie) =
             Some (JObj [("searchForMovie", JBool true)]))
  /\ (forall (this : ArrClient) (w : World) (artist : object),
        proto this = LidarrClientClass ->
        issued (world_after (invoke (addArtist artist) this w)) =
          issued w ++ [post_request this "/artist" (addArtist_payload artist)]
        /\ (own_property "monitored" artist = None ->
            own_property "monitored" (addArtist_payload artist) = Some (JBool true))
        /\ (forall b : bool,
              own_property "monitored" artist = Some (JBool b) ->
              own_property "monitored" (addArtist_payload artist) = Some (JBool b)))
  /\ (forall (this : ArrClient) (w : World) (author : object),
        proto this = ReadarrClientClass ->
        issued (world_after (invoke (addAuthor author) this w)) =
          issued w ++ [post_request this "/author" (addAuthor_payload author)]
        /\ (own_property "monitored" author = None ->
            own_property "monitored" (addAuthor_payload author) = Some (JBool true))
        /\ (forall b : bool,
              own_property "monitored" author = Some (JBool b) ->
              own_property "monitored" (addAuthor_payload author) = Some (JBool b))).
Proof.
  repeat split.
  - now apply invoke_addSeries.
  - apply (monitored_default addSeries_payload). intros o. now payload_lookup.
  - apply (monitored_default addSeries_payload). intros o. now payload_lookup.
  - intros Ha. payload_lookup. now rewrite (get_property_absent _ _ Ha).
  - intros b Hb. payload_lookup. now rewrite (get_property_present _ _ _ Hb).
  - now payload_lookup.
  - now apply invoke_addMovie.
  - apply (monitored_default addMovie_payload). intros o. now payload_lookup.
  - apply (monitored_default addMovie_payload). intros o. now payload_lookup.
  - now payload_lookup.
  - now apply invoke_addArtist.
  - apply (monitored_default addArtist_payload). intros o. now payload_lookup.
  - apply (monitored_default addArtist_payload). intros o. now payload_lookup.
  - now apply invoke_addAuthor.
  - apply (monitored_default addAuthor_payload). intros o. now payload_lookup.
  - apply (monitored_default addAuthor_payload). intros o. now payload_lookup.
Qed.

Lemma add_payload_defaults_witness :
  (issued (world_after (invoke (addSeries series_without_flags) sample_sonarr
                          (world_answering (Rejected connection_refused)))) =
     [] ++ [post_request sample_sonarr "/series" (addSeries_payload series_without_flags)]
   /\ own_property "monitored" (addSeries_payload series_without_flags) = Some (JBool true)
   /\ own_property "seasonFolder" (addSeries_payload series_without_flags) = Some (JBool true)
   /\ own_property "seasonFolder" (addSeries_payload series_with_seasonFolder_off)
        = Some (JBool false))
  /\ own_property "monitored" (addMovie_payload movie_unmonitored) = Some (JBool false)
  /\ own_property "monitored" (addArtist_payload artist_with_addOptions) = Some (JBool true)
  /\ own_property "monitored" (addAuthor_payload []) = Some (JBool true).
Proof.
  pose proof add_payload_defaults as (Hseries & Hmovie & Hartist & Hauthor).
  pose (w := world_answering (Rejected connection_refused)).
  destruct (Hseries sample_sonarr w series_without_flags eq_refl)
    as (Hreq & Hmon & _ & Hsf & _).
  destruct (Hseries sample_sonarr w series_with_seasonFolder_off eq_refl)
    as (_ & _ & _ & _ & Hsf' & _).
  destruct (Hmovie sample_radarr w movie_unmonitored eq_refl) as (_ & _ & Hmon' & _).
  destruct (Hartist sample_lidarr w artist_with_addOptions eq_refl) as (_ & Hmon'' & _).
  destruct (Hauthor sample_readarr w [] eq_refl) as (_ & Hmon''' & _).
  repeat apply conj.
  - exact Hreq.
  - apply Hmon. reflexivity.
  - apply Hsf. reflexivity.
  - apply (Hsf' false). reflexivity.
  - apply (Hmon' false). reflexivity.
  - apply Hmon''. reflexivity.
  - apply Hmon'''. reflexivity.
Defined.

(** C3 as stated fails: an input of addSeries without a monitored field
    but with seasonFolder: false is posted with seasonFolder: false. *)
Lemma addSeries_keeps_explicit_seasonFolder :
  own_property "monitored" series_with_seasonFolder_off = None
  /\ issued (world_after (invoke (addSeries series_with_seasonFolder_off) sample_sonarr
                            (world_answering (Rejected connection_refused)))) =
       [{| req_url := "http://nas.local:8989/api/v3/series";
           req_method := Some "POST";
           req_body :=
             JSON_stringify
               (JObj [("tvdbId", JNum 1); ("rootFolderPath", JStr "/tv");
                      ("qualityProfileId", JNum 2); ("seasonFolder", JBool false);
                      ("monitored", JBool true);
                      ("addOptions", JObj [("searchForMissingEpisodes", JBool true)])]);
           req_headers := request_headers sample_sonarr no_options |}]
  /\ own_property "seasonFolder" (addSeries_payload series_with_seasonFolder_off)
       <> Some (JBool true).
Proof.
  split; [reflexivity |]. split; [reflexivity |]. discriminate.
Qed.

(** C4. Whatever the caller passes to addSeries, addMovie, addArtist or
    addAuthor, also an entity with an addOptions field of its own, the
    call issues one POST whose body is the JSON text of a payload that
    has one addOptions property, and it is exactly the
    fixed block of the method: searchForMissingEpisodes, searchForMovie,
    searchForMissingAlbums, respectively searchForMissingBooks, set to
    true. *)
Theorem add_payload_addOptions_fixed :
  (forall (this : ArrClient) (w : World) (series : object),
      proto this = SonarrClientClass ->
      issued (world_after (invoke (addSeries series) this w)) =
        issued w ++ [post_request this "/series" (addSeries_payload series)]
      /\ own_property "addOptions" (addSeries_payload series) =
           Some (JObj [("searchForMissingEpisodes", JBool true)])
      /\ NoDup (map fst (addSeries_payload series)))
  /\ (forall (this : ArrClient) (w : World) (movie : object),
        proto this = RadarrClientClass ->
        issued (world_after (invoke (addMovie movie) this w)) =
          issued w ++ [post_request this "/movie" (addMovie_payload movie)]
        /\ own_property "addOptions" (addMovie_payload movie) =
             Some (JObj [("searchForMovie", JBool true)])
        /\ NoDup (map fst (addMovie_payload movie)))
  /\ (forall (this : ArrClient) (w : World) (artist : object),
        proto this = LidarrClientClass ->
        issued (world_after (invoke (addArtist artist) this w)) =
          issued w ++ [post_request this "/artist" (addArtist_payload artist)]
        /\ own_property "addOptions" (addArtist_payload artist) =
             Some (JObj [("searchForMissingAlbums", JBool true)])
        /\ NoDup (map fst (addArtist_payload artist)))
  /\ (forall (this : ArrClient) (w : World) (author : object),
        proto this = ReadarrClientClass ->
        issued (world_after (invoke (addAuthor author) this w)) =
          issued w ++ [post_request this "/author" (addAuthor_payload author)]
        /\ own_property "addOptions" (addAuthor_payload author) =
             Some (JObj [("searchForMissingBooks", JBool true)])
        /\ NoDup (map fst (addAuthor_payload author))).
Proof.
  repeat split;
    first [ now apply invoke_addSeries | now apply invoke_addMovie
          | now apply invoke_addArtist | now apply invoke_addAuthor
          | apply object_literal_NoDup
          | now payload_lookup ].
Qed.

Lemma add_payload_addOptions_fixed_witness :
  issued (world_after (invoke (addArtist artist_with_addOptions) sample_lidarr
                         (world_answering (Rejected connection_refused)))) =
    [] ++ [post_request sample_lidarr "/artist" (addArtist_payload artist_with_addOptions)]
  /\ own_property "addOptions" (addArtist_payload artist_with_addOptions) =
       Some (JObj [("searchForMissingAlbums", JBool true)])
  /\ NoDup (map fst (addArtist_payload artist_with_addOptions)).
Proof.
  apply (proj1 (proj2 (proj2 add_payload_addOptions_fixed))
           sample_lidarr (world_answering (Rejected connection_refused))
           artist_with_addOptions).
  reflexivity.
Defined.

(** ** Failures *)








(** ** testConnection *)

Lemma understands_base (cls : ClientClass) (c : Call) :
  declaring_class c = ArrClientClass -> understands cls c = true.
Proof. unfold understands. now intros ->. Qed.

Lemma invoke_testConnection (this : ArrClient) (w : World) :
  invoke testConnection this w =
  (Normal (JBool (is_normal (completion (invoke getStatus this w)))),
   this_after (invoke getStatus this w),
   world_after (invoke getStatus this w)).
Proof.
  unfold invoke.
  rewrite !understands_base by reflexivity. cbn [lookup_method].
  rewrite testConnection_run. unfold ArrClient_getStatus. rewrite request_run.
  reflexivity.
Qed.

Lemma swallows_testConnection (cls : ClientClass) : swallows cls testConnection.
Proof.
  pose (this := {| proto := cls; config := sample_config;
                   serviceName := sonarr; apiVersion := "v3" |}).
  pose (w := world_answering (Rejected connection_refused)).
  exists this, w, (fetch_arguments this "/system/status" no_options),
    (Propagated connection_refused), (JBool false).
  rewrite invoke_testConnection. unfold invoke.
  rewrite understands_base by reflexivity. cbn [lookup_method].
  unfold ArrClient_getStatus. rewrite request_run.
  repeat apply conj; reflexivity.
Qed.

Lemma swallows_only_testConnection (cls : ClientClass) (c : Call) :
  understands cls c = true -> swallows cls c -> c = testConnection.
Proof.
  intros Hu (this & w & r & e & v & Hp & Hissued & Hthrow & Hnormal).
  destruct (testConnection_or_not c) as [-> | Hc]; [reflexivity | exfalso].
  destruct (invoke_run cls c Hu) as (endpoint & options & _ & H).
  destruct (H this w Hp) as (_ & Hw & Hcompl).
  rewrite Hw, issued_record_request in Hissued.
  apply app_inv_head in Hissued. injection Hissued as <-.
  assert (completion (invoke c this w) = Throw e)
    by (rewrite Hcompl; destruct c; congruence).
  congruence.
Qed.

(** C6. testConnection never throws: whatever the status call does, it
    returns a boolean, true when getStatus returns and false when getStatus
    fails, with the service-API error as with a failure of the transport;
    it does nothing besides the status call; and among the methods of a
    client it is the only one that returns normally though its request
    failed. *)
Theorem testConnection_returns_boolean :
  (forall (this : ArrClient) (w : World),
      exists b : bool,
        completion (invoke testConnection this w) = Normal (JBool b)
        /\ b = is_normal (completion (invoke getStatus this w))
        /\ world_after (invoke testConnection this w) = world_after (invoke getStatus this w)
        /\ this_after (invoke testConnection this w) = this)
  /\ (forall (this : ArrClient) (w : World) (v : value),
         completion (invoke getStatus this w) = Normal v ->
         completion (invoke testConnection this w) = Normal (JBool true))
  /\ (forall (this : ArrClient) (w : World) (msg : string),
         completion (invoke getStatus this w) = Throw (NewError msg) ->
         completion (invoke testConnection this w) = Normal (JBool false))
  /\ (forall (this : ArrClient) (w : World) (r : Rejection),
         completion (invoke getStatus this w) = Throw (Propagated r) ->
         completion (invoke testConnection this w) = Normal (JBool false))
  /\ (forall (cls : ClientClass) (c : Call),
         understands cls c = true ->
         (swallows cls c <-> c = testConnection)).
Proof.
  repeat apply conj.
  - intros this w. exists (is_normal (completion (invoke getStatus this w))).
    rewrite invoke_testConnection. repeat apply conj; try reflexivity.
    unfold invoke. rewrite understands_base by reflexivity. cbn [lookup_method].
    unfold ArrClient_getStatus. now rewrite request_run.
  - intros this w v H. rewrite invoke_testConnection, H. reflexivity.
  - intros this w msg H. rewrite invoke_testConnection, H. reflexivity.
  - intros this w r H. rewrite invoke_testConnection, H. reflexivity.
  - intros cls c Hu. split.
    + now apply swallows_only_testConnection.
    + intros ->. apply swallows_testConnection.
Qed.

Lemma testConnection_returns_boolean_witness :
  completion (invoke testConnection sample_radarr
                (world_answering (Fulfilled (response_200 (JObj [("appName", JStr "Radarr")])))))
    = Normal (JBool true)
  /\ completion (invoke testConnection sample_radarr
                   (world_answering (Fulfilled response_500_boom))) = Normal (JBool false)
  /\ completion (invoke testConnection sample_radarr
                   (world_answering (Rejected connection_refused))) = Normal (JBool false)
  /\ (swallows RadarrClientClass testConnection <-> testConnection = testConnection).
Proof.
  pose proof testConnection_returns_boolean as (_ & Hok & Hapi & Hnet & Honly).
  repeat apply conj.
  - apply (Hok _ _ (JObj [("appName", JStr "Radarr")])). reflexivity.
  - apply (Hapi _ _ "radarr API error: 500 Internal Server Error - boom"). reflexivity.
  - apply (Hnet _ _ connection_refused). reflexivity.
  - apply (Honly RadarrClientClass testConnection). reflexivity.
  - apply (Honly RadarrClientClass testConnection). reflexivity.
Defined.

(** ** getCalendar *)

Lemma truthy_string_cons (c : ascii) (s : string) : truthy_string (String c s) = true.
Proof. reflexivity. Qed.

Lemma calendar_query_cases (start end_ : option string) :
  calendar_query start end_ =
  match given_nonempty start, given_nonempty end_ with
  | None, None => ""
  | Some s, None => "?start=" +:+ urlencoded_component s
  | None, Some e => "?end=" +:+ urlencoded_component e
  | Some s, Some e =>
      "?start=" +:+ urlencoded_component s +:+ "&end=" +:+ urlencoded_component e
  end.
Proof.
  unfold calendar_query, given_nonempty, truthy_string.
  destruct start as [s |], end_ as [e |];
    try destruct (String.eqb s ""); try destruct (String.eqb e "");
    reflexivity.
Qed.

Lemma invoke_getCalendar (this : ArrClient) (w : World) (start end_ : option string) :
  issued (world_after (invoke (getCalendar start end_) this w)) =
  issued w ++ [fetch_arguments this ("/calendar" +:+ calendar_query start end_) no_options].
Proof.
  unfold invoke. rewrite understands_base by reflexivity.
  destruct (proto this); cbn [lookup_method];
    unfold ArrClient_getCalendar, LidarrClient_getCalendar, ReadarrClient_getCalendar;
    now rewrite request_run.
Qed.

(** C7, as the code has it. For the getCalendar of every class (the one of
    ArrClient and the overrides of LidarrClient and ReadarrClient), an
    argument is passed on exactly when it is given and not the empty
    string: with neither, the URL ends in "/calendar" with no query string;
    with start only, the query string is "?start=" and the form-encoded
    start; with end only, "?end=" and the form-encoded end; with both,
    "?start=", the encoded start, "&end=" and the encoded end. *)
Theorem getCalendar_query_string (this : ArrClient) (w : World) (start end_ : option string) :
  issued (world_after (invoke (getCalendar start end_) this w)) =
  issued w ++
    [{| req_url :=
          url (config this) +:+ "/api/" +:+ apiVersion this +:+ "/calendar"
            +:+ match given_nonempty start, given_nonempty end_ with
                | None, None => ""
                | Some s, None => "?start=" +:+ urlencoded_component s
                | None, Some e => "?end=" +:+ urlencoded_component e
                | Some s, Some e =>
                    "?start=" +:+ urlencoded_component s
                      +:+ "&end=" +:+ urlencoded_component e
                end;
        req_method := None;
        req_body := None;
        req_headers := request_headers this no_options |}].
Proof.
  rewrite invoke_getCalendar, <- calendar_query_cases.
  unfold fetch_arguments, request_url. now rewrite <- !append_assoc.
Qed.

(** C7 as stated fails when an argument is the empty string: getCalendar
    called with start = "" only puts no start parameter in the URL. *)
Lemma getCalendar_drops_empty_start :
  map req_url (issued (world_after (invoke (getCalendar (Some "") None) sample_sonarr
                                      (world_answering (Rejected connection_refused)))))
    = ["http://nas.local:8989/api/v3/calendar"]
  /\ map req_url (issued (world_after (invoke (getCalendar (Some "") None) sample_lidarr
                                         (world_answering (Rejected connection_refused)))))
       = ["http://nas.local:8989/api/v1/calendar"]
  /\ map req_url (issued (world_after (invoke (getCalendar (Some "") (Some "2024-02-01"))
                                         sample_readarr
                                         (world_answering (Rejected connection_refused)))))
       = ["http://nas.local:8989/api/v1/calendar?end=2024-02-01"].
Proof. repeat apply conj; reflexivity. Qed.

Example getCalendar_both_encoded :
  map req_url (issued (world_after
     (invoke (getCalendar (Some "2024-01-01T00:00:00Z") (Some "2024-02-01 12:00"))
        sample_sonarr (world_answering (Rejected connection_refused)))))
  = ["http://nas.local:8989/api/v3/calendar?start=2024-01-01T00%3A00%3A00Z&end=2024-02-01+12%3A00"].
Proof. reflexivity. Qed.

(** ** searchEpisode *)

(** C8, as the code has it. searchEpisode(ids) posts to /command the JSON
    text of { name: "EpisodeSearch", episodeIds: ids }, and when the
    response is a success it returns the decoded response body as it is:
    no field of the response is removed. *)
Theorem searchEpisode_posts_command (this : ArrClient) (w : World) (episodeIds : list Z) :
  proto this = SonarrClientClass ->
  let req :=
    {| req_url := url (config this) +:+ "/api/" +:+ apiVersion this +:+ "/command";
       req_method := Some "POST";
       req_body := JSON_stringify
                     (JObj [("name", JStr "EpisodeSearch");
                            ("episodeIds", JArr (map JNum episodeIds))]);
       req_headers := request_headers this no_options |} in
  issued (world_after (invoke (searchEpisode episodeIds) this w)) = issued w ++ [req]
  /\ forall (response : Response) (v : value),
       answer w req = Fulfilled response ->
       ok response = true ->
       json response = Fulfilled v ->
       completion (invoke (searchEpisode episodeIds) this w) = Normal v.
Proof.
  intros Hp req. unfold invoke. rewrite Hp.
  cbn [understands declaring_class ClientClass_eqb orb lookup_method].
  unfold SonarrClient_searchEpisode. rewrite request_run.
  change (fetch_arguments this "/command" (post_json (searchEpisode_payload episodeIds)))
    with req.
  split; [reflexivity |].
  intros response v Ha Hok Hj. unfold completion, dispatch_completion. cbn [fst].
  now rewrite Ha, Hok, Hj.
Qed.

Lemma searchEpisode_posts_command_witness :
  issued (world_after (invoke (searchEpisode [1; 2; 3]%Z) sample_sonarr
                         (world_answering (Fulfilled (response_200 command_resource))))) =
    [] ++ [{| req_url := "http://nas.local:8989/api/v3/command";
              req_method := Some "POST";
              req_body := JSON_stringify
                            (JObj [("name", JStr "EpisodeSearch");
                                   ("episodeIds", JArr [JNum 1; JNum 2; JNum 3])]);
              req_headers := request_headers sample_sonarr no_options |}]
  /\ completion (invoke (searchEpisode [1; 2; 3]%Z) sample_sonarr
                   (world_answering (Fulfilled (response_200 command_resource))))
       = Normal command_resource.
Proof.
  destruct (searchEpisode_posts_command sample_sonarr
              (world_answering (Fulfilled (response_200 command_resource)))
              [1; 2; 3]%Z eq_refl) as (Hreq & Hret).
  split.
  - exact Hreq.
  - apply (Hret (response_200 command_resource) command_resource); reflexivity.
Defined.

(** C8 as stated fails in its second half: when the service answers
    { id: 7, name: "EpisodeSearch", status: "queued" }, searchEpisode
    returns that whole object, with its name and status fields. *)
Lemma searchEpisode_returns_whole_response :
  exists returned : object,
    completion (invoke (searchEpisode [1; 2; 3]%Z) sample_sonarr
                  (world_answering (Fulfilled (response_200 command_resource))))
      = Normal (JObj returned)
    /\ own_property "id" returned = Some (JNum 7)
    /\ own_property "name" returned = Some (JStr "EpisodeSearch")
    /\ own_property "status" returned = Some (JStr "queued")
    /\ JObj returned <> JObj [("id", JNum 7)].
Proof.
  exists [("id", JNum 7); ("name", JStr "EpisodeSearch"); ("status", JStr "queued")].
  repeat apply conj; try reflexivity. discriminate.
Qed.

Example searchEpisode_body_text :
  JSON_stringify (JObj (searchEpisode_payload [1; 2; 3]%Z)) =
  Some ("{" +:+ QuoteJSONString "name" +:+ ":" +:+ QuoteJSONString "EpisodeSearch"
          +:+ "," +:+ QuoteJSONString "episodeIds" +:+ ":[1,2,3]}").
Proof. reflexivity. Qed.

(** ** The state of a client *)

Lemma invoke_this_after (c : Call) (this : ArrClient) (w : World) :
  this_after (invoke c this w) = this.
Proof.
  destruct (understands (proto this) c) eqn:Hu.
  - destruct (invoke_run _ c Hu) as (endpoint & options & _ & H).
    now destruct (H this w eq_refl) as (Ht & _).
  - unfold invoke. now rewrite Hu.
Qed.

Lemma invoke_all_this (cs : list Call) (this : ArrClient) (w : World) :
  (invoke_all cs this w).1 = this.
Proof.
  revert this w. induction cs as [|c cs IH]; intros this w; simpl; [reflexivity |].
  now rewrite IH, invoke_this_after.
Qed.

Lemma invoke_completion_answer (c : Call) (this : ArrClient) (w1 w2 : World) :
  (forall req, answer w1 req = answer w2 req) ->
  completion (invoke c this w1) = completion (invoke c this w2).
Proof.
  intros Ha. destruct (understands (proto this) c) eqn:Hu.
  - destruct (invoke_run _ c Hu) as (endpoint & options & _ & H).
    destruct (H this w1 eq_refl) as (_ & _ & H1).
    destruct (H this w2 eq_refl) as (_ & _ & H2).
    rewrite H1, H2, Ha. reflexivity.
  - unfold invoke. now rewrite Hu.
Qed.

(** C9. What the constructor stored stays as it is: after any sequence of
    method calls on a client, its url, apiKey, serviceName and apiVersion
    (and its class) are those set at construction; and a call takes
    nothing from earlier calls: what it completes with depends on the
    client, the arguments and the answer of the transport only. *)
Theorem configuration_is_immutable :
  (forall (cs : list Call) (this : ArrClient) (w : World),
      (invoke_all cs this w).1 = this)
  /\ (forall (e : NewExpr) (cs : list Call) (w : World),
         let this' := (invoke_all cs (construct e) w).1 in
         url (config this') = slash_trimmed (url (supplied_config e))
         /\ apiKey (config this') = apiKey (supplied_config e)
         /\ serviceName this' = serviceName (construct e)
         /\ apiVersion this' = specified_version (proto (construct e)))
  /\ (forall (c : Call) (this : ArrClient) (w1 w2 : World),
         (forall req, answer w1 req = answer w2 req) ->
         completion (invoke c this w1) = completion (invoke c this w2)).
Proof.
  repeat apply conj.
  - apply invoke_all_this.
  - intros e cs w this'. subst this'. rewrite invoke_all_this.
    rewrite construct_url, replace_trailing_slash_trimmed, construct_apiKey,
      construct_apiVersion.
    repeat apply conj; reflexivity.
  - apply invoke_completion_answer.
Qed.

Lemma configuration_is_immutable_witness :
  (invoke_all [getQueue; addSeries series_without_flags; testConnection] sample_sonarr
     (world_answering (Fulfilled response_500_boom))).1 = sample_sonarr
  /\ completion (invoke getSeries sample_sonarr
                   (world_answering (Fulfilled response_500_boom)))
     = completion (invoke getSeries sample_sonarr
                     (world_after (invoke getQueue sample_sonarr
                                     (world_answering (Fulfilled response_500_boom))))).
Proof.
  pose proof configuration_is_immutable as (Hthis & _ & Hanswer).
  split.
  - apply Hthis.
  - apply Hanswer. intros req. reflexivity.
Defined.

(** ** The stored base URL *)

(** C10. The constructor removes at most one trailing '/': the stored URL
    is the input without its final '/' when it ends in one, and the input
    itself otherwise; so an input ending in "//" is stored still ending in
    '/', and the URL of every request of such a client has "//api/" after
    the rest of the base URL. *)
Theorem constructor_strips_one_trailing_slash :
  (forall (e : NewExpr) (p : string),
      url (supplied_config e) = p +:+ "/" -> url (config (construct e)) = p)
  /\ (forall e : NewExpr,
         (forall p, url (supplied_config e) <> p +:+ "/") ->
         url (config (construct e)) = url (supplied_config e))
  /\ (forall (e : NewExpr) (p : string),
         url (supplied_config e) = p +:+ "//" ->
         url (config (construct e)) = p +:+ "/")
  /\ (forall (cls : ClientClass) (c : Call),
         understands cls c = true ->
         exists endpoint : string,
           forall (e : NewExpr) (p : string) (w : World),
             proto (construct e) = cls ->
             url (supplied_config e) = p +:+ "//" ->
             map req_url (issued (world_after (invoke c (construct e) w))) =
             map req_url (issued w) ++
               [p +:+ "//api/" +:+ specified_version cls +:+ endpoint]).
Proof.
  assert (Hdouble : forall p, p +:+ "//" = (p +:+ "/") +:+ "/")
    by (intros p; now rewrite append_assoc).
  repeat apply conj.
  - intros e p H. now rewrite construct_url, H, replace_trailing_slash_append.
  - intros e H. rewrite construct_url. now apply replace_trailing_slash_unchanged.
  - intros e p H.
    now rewrite construct_url, H, Hdouble, replace_trailing_slash_append.
  - intros cls c Hu.
    destruct (request_url_of_call cls c Hu) as (endpoint & H).
    exists endpoint. intros e p w Hp Hurl.
    rewrite (H (construct e) w Hp).
    rewrite construct_url, Hurl, Hdouble, replace_trailing_slash_append.
    rewrite construct_apiVersion, Hp, append_assoc. reflexivity.
Qed.

Lemma constructor_strips_one_trailing_slash_witness :
  url (config (construct (new_SonarrClient sample_config))) = "http://nas.local:8989"
  /\ url (config (construct (new_ArrClient radarr (mkConfig "http://nas.local:7878" "k"))))
       = "http://nas.local:7878"
  /\ url (config (construct (new_LidarrClient (mkConfig "http://nas.local:8686//" "k"))))
       = "http://nas.local:8686/"
  /\ (exists endpoint : string,
         map req_url
           (issued (world_after
              (invoke getArtists
                 (construct (new_LidarrClient (mkConfig "http://nas.local:8686//" "k")))
                 (world_answering (Rejected connection_refused))))) =
         map req_url [] ++ ["http://nas.local:8686" +:+ "//api/" +:+ "v1" +:+ endpoint]).
Proof.
  pose proof constructor_strips_one_trailing_slash as (Hone & Hnone & Htwo & Hreq).
  repeat apply conj.
  - apply (Hone (new_SonarrClient sample_config) "http://nas.local:8989"). reflexivity.
  - apply (Hnone (new_ArrClient radarr (mkConfig "http://nas.local:7878" "k"))).
    apply not_ends_with_slash. reflexivity.
  - apply (Htwo (new_LidarrClient (mkConfig "http://nas.local:8686//" "k"))
             "http://nas.local:8686").
    reflexivity.
  - destruct (Hreq LidarrClientClass getArtists eq_refl) as (endpoint & H).
    exists endpoint.
    apply (H (new_LidarrClient (mkConfig "http://nas.local:8686//" "k"))
             "http://nas.local:8686" (world_answering (Rejected connection_refused))
             eq_refl eq_refl).
Defined.

Example double_slash_request_url :
  map req_url
    (issued (world_after
       (invoke (getArtistById 7)
          (construct (new_LidarrClient (mkConfig "http://nas.local:8686//" "k")))
          (world_answering (Rejected connection_refused)))))
  = ["http://nas.local:8686//api/v1/artist/7"].
Proof. reflexivity. Qed.

(** * Further properties of the client *)

Lemma invoke_request (c : Call) (endpoint : string) (options : RequestInit)
    (this : ArrClient) (w : World) :
  understands (proto this) c = true ->
  lookup_method (proto this) c = request endpoint options ->
  invoke c this w =
  (dispatch_completion this (answer w (fetch_arguments this endpoint options)),
   this, record_request w (fetch_arguments this endpoint options)).
Proof.
  intros Hu E. unfold invoke. now rewrite Hu, E, request_run.
Qed.

(** ** Optional numeric filters *)

(** X1. getEpisodes passes every season number on, 0 included (it tests
    for undefined), whereas getAlbums and getBooks test the truthiness of
    the identifier: an artistId or authorId of 0 is dropped and the
    unfiltered list is requested, just as when no identifier is given. *)
Theorem optional_numeric_filters :
  (forall (this : ArrClient) (w : World) (seriesId : Z) (seasonNumber : option Z),
      proto this = SonarrClientClass ->
      map req_url (issued (world_after (invoke (getEpisodes seriesId seasonNumber) this w))) =
      map req_url (issued w) ++
        [url (config this) +:+ "/api/" +:+ apiVersion this +:+ "/episode?seriesId="
           +:+ Number_toString seriesId
           +:+ match seasonNumber with
               | Some n => "&seasonNumber=" +:+ Number_toString n
               | None => ""
               end])
  /\ (forall (this : ArrClient) (w : World) (artistId : option Z),
         proto this = LidarrClientClass ->
         map req_url (issued (world_after (invoke (getAlbums artistId) this w))) =
         map req_url (issued w) ++
           [url (config this) +:+ "/api/" +:+ apiVersion this +:+ "/album"
              +:+ match artistId with
                  | Some 0%Z | None => ""
                  | Some n => "?artistId=" +:+ Number_toString n
                  end])
  /\ (forall (this : ArrClient) (w : World) (authorId : option Z),
         proto this = ReadarrClientClass ->
         map req_url (issued (world_after (invoke (getBooks authorId) this w))) =
         map req_url (issued w) ++
           [url (config this) +:+ "/api/" +:+ apiVersion this +:+ "/book"
              +:+ match authorId with
                  | Some 0%Z | None => ""
                  | Some n => "?authorId=" +:+ Number_toString n
                  end]).
Proof.
  repeat apply conj.
  - intros this w seriesId seasonNumber Hp.
    erewrite invoke_request; [| now rewrite Hp | rewrite Hp; reflexivity].
    cbn [world_after snd]. rewrite issued_record_request, map_req_url_snoc.
    cbn [fetch_arguments req_url]. unfold request_url.
    destruct seasonNumber; [| now rewrite append_nil_r].
    now rewrite !append_assoc.
  - intros this w artistId Hp.
    erewrite invoke_request; [| now rewrite Hp | rewrite Hp; reflexivity].
    cbn [world_after snd]. rewrite issued_record_request, map_req_url_snoc.
    cbn [fetch_arguments req_url]. unfold request_url.
    destruct artistId as [[| n | n] |]; reflexivity.
  - intros this w authorId Hp.
    erewrite invoke_request; [| now rewrite Hp | rewrite Hp; reflexivity].
    cbn [world_after snd]. rewrite issued_record_request, map_req_url_snoc.
    cbn [fetch_arguments req_url]. unfold request_url.
    destruct authorId as [[| n | n] |]; reflexivity.
Qed.

Lemma optional_numeric_filters_witness :
  map req_url (issued (world_after
     (invoke (getEpisodes 12 (Some 0%Z)) sample_sonarr
        (world_answering (Rejected connection_refused))))) =
    map req_url [] ++
      ["http://nas.local:8989" +:+ "/api/" +:+ "v3" +:+ "/episode?seriesId=" +:+ "12"
         +:+ "&seasonNumber=" +:+ "0"]
  /\ map req_url (issued (world_after
        (invoke (getAlbums (Some 0%Z)) sample_lidarr
           (world_answering (Rejected connection_refused))))) =
       map req_url [] ++ ["http://nas.local:8989" +:+ "/api/" +:+ "v1" +:+ "/album" +:+ ""]
  /\ map req_url (issued (world_after
        (invoke (getBooks (Some 5%Z)) sample_readarr
           (world_answering (Rejected connection_refused))))) =
       map req_url [] ++
         ["http://nas.local:8989" +:+ "/api/" +:+ "v1" +:+ "/book" +:+ "?authorId=" +:+ "5"].
Proof.
  pose proof optional_numeric_filters as (Hep & Halb & Hbook).
  repeat apply conj.
  - exact (Hep sample_sonarr (world_answering (Rejected connection_refused))
             12%Z (Some 0%Z) eq_refl).
  - exact (Halb sample_lidarr (world_answering (Rejected connection_refused))
             (Some 0%Z) eq_refl).
  - exact (Hbook sample_readarr (world_answering (Rejected connection_refused))
             (Some 5%Z) eq_refl).
Defined.

(** ** The query of the Prowlarr search *)

Lemma encode_bytes_digits (f : ascii -> string) (u : Decimal.uint) :
  (forall c, one_of "0123456789" c = true -> f c = String c "") ->
  encode_bytes f (NilEmpty.string_of_uint u) = NilEmpty.string_of_uint u.
Proof.
  intros H. induction u as [| u IH | u IH | u IH | u IH | u IH | u IH | u IH | u IH | u IH | u IH];
    [reflexivity | ..]; simpl; rewrite IH, H by reflexivity; reflexivity.
Qed.

Lemma encode_bytes_Number_toString (f : ascii -> string) (n : Z) :
  (forall c, one_of "-0123456789" c = true -> f c = String c "") ->
  encode_bytes f (Number_toString n) = Number_toString n.
Proof.
  intros H.
  assert (Hd : forall c, one_of "0123456789" c = true -> f c = String c "").
  { intros c Hc. apply H. unfold one_of in *. simpl in *.
    now rewrite Hc, orb_true_r. }
  assert (Hu : forall u, encode_bytes f (NilZero.string_of_uint u) = NilZero.string_of_uint u).
  { intros u. destruct u; try apply (encode_bytes_digits f _ Hd).
    simpl. now rewrite Hd by reflexivity. }
  unfold Number_toString. destruct (Z.to_int n) as [u | u]; simpl.
  - apply Hu.
  - rewrite H by reflexivity. now rewrite Hu.
Qed.

(** Decimal digits and a minus sign pass the form encoding unchanged. *)
Lemma urlencoded_component_Number_toString (n : Z) :
  urlencoded_component (Number_toString n) = Number_toString n.
Proof.
  apply encode_bytes_Number_toString.
  intros [[] [] [] [] [] [] [] []]; try discriminate; reflexivity.
Qed.

Lemma join_cons (sep x : string) (rest : list string) :
  join sep (x :: rest) = x +:+ String.concat "" (map (fun y => sep +:+ y) rest).
Proof.
  unfold join. revert x. induction rest as [|y rest IH]; intros x.
  - simpl. now rewrite append_nil_r.
  - change (String.concat sep (x :: y :: rest))
      with (x +:+ sep +:+ String.concat sep (y :: rest)).
    rewrite IH. cbn [map]. destruct rest as [|z rest].
    + simpl. now rewrite !append_nil_r.
    + change (String.concat "" ((sep +:+ y) :: map (fun y0 => sep +:+ y0) (z :: rest)))
        with ((sep +:+ y) +:+ "" +:+ String.concat "" (map (fun y0 => sep +:+ y0) (z :: rest))).
      now rewrite append_nil_l, !append_assoc.
Qed.

Lemma search_query_string (query : string) (cs : list Z) :
  URLSearchParams_toString
    ([("query", query)] ++ map (fun c => ("categories", Number_toString c)) cs) =
  "query=" +:+ urlencoded_component query
    +:+ String.concat ""
          (map (fun c => "&categories=" +:+ urlencoded_component (Number_toString c)) cs).
Proof.
  unfold URLSearchParams_toString. cbn [app map fst snd]. rewrite join_cons.
  rewrite !map_map.
  rewrite (map_ext _ (fun c => "&categories=" +:+ urlencoded_component (Number_toString c)))
    by reflexivity.
  now rewrite !append_assoc.
Qed.

(** X2. The search of ProwlarrClient asks for "/search?query=" followed by
    the form-encoded query and then, for each category in the order
    given, "&categories=" and the form-encoded text of the number; an
    empty list of categories gives the same URL as no list; and a
    category that is a safe integer is written as its decimal digits. *)
Theorem prowlarr_search_url (this : ArrClient) (w : World) (query : string)
    (categories : option (list Z)) :
  proto this = ProwlarrClientClass ->
  let cs := match categories with Some cs => cs | None => [] end in
  map req_url (issued (world_after (invoke (search query categories) this w))) =
    map req_url (issued w) ++
      [url (config this) +:+ "/api/" +:+ apiVersion this +:+ "/search?query="
         +:+ urlencoded_component query
         +:+ String.concat ""
               (map (fun c => "&categories=" +:+ urlencoded_component (Number_toString c)) cs)]
  /\ (Forall (fun c => (Z.abs c <= 9007199254740991)%Z) cs ->
      map req_url (issued (world_after (invoke (search query categories) this w))) =
        map req_url (issued w) ++
          [url (config this) +:+ "/api/" +:+ apiVersion this +:+ "/search?query="
             +:+ urlencoded_component query
             +:+ String.concat "" (map (fun c => "&categories=" +:+ Number_toString c) cs)]).
Proof.
  intros Hp cs.
  assert (Hurl :
    map req_url (issued (world_after (invoke (search query categories) this w))) =
    map req_url (issued w) ++
      [url (config this) +:+ "/api/" +:+ apiVersion this +:+ "/search?query="
         +:+ urlencoded_component query
         +:+ String.concat ""
               (map (fun c => "&categories=" +:+ urlencoded_component (Number_toString c)) cs)]).
  { rewrite (request_url_of_call_exact ProwlarrClientClass (search query categories) this w
               eq_refl Hp).
    cbn [endpoint_of]. subst cs. destruct categories as [cs |].
    - change (("query", query) :: map (fun c : Z => ("categories", Number_toString c)) cs)
        with ([("query", query)] ++ map (fun c : Z => ("categories", Number_toString c)) cs).
      now rewrite search_query_string.
    - change [("query", query)]
        with ([("query", query)] ++ map (fun c : Z => ("categories", Number_toString c)) []).
      now rewrite search_query_string. }
  split; [exact Hurl |].
  intros _. rewrite Hurl.
  rewrite (map_ext (fun c => "&categories=" +:+ urlencoded_component (Number_toString c))
             (fun c => "&categories=" +:+ Number_toString c)); [reflexivity |].
  intros c. now rewrite urlencoded_component_Number_toString.
Qed.

Lemma prowlarr_search_url_witness :
  map req_url (issued (world_after
     (invoke (search "ubuntu 24.04 & more" (Some [2000; 5000]%Z))
        (construct (new_ProwlarrClient sample_config))
        (world_answering (Rejected connection_refused))))) =
    map req_url [] ++
      ["http://nas.local:8989" +:+ "/api/" +:+ "v1" +:+ "/search?query="
         +:+ "ubuntu+24.04+%26+more" +:+ "&categories=2000&categories=5000"].
Proof.
  apply (proj2 (prowlarr_search_url (construct (new_ProwlarrClient sample_config))
                  (world_answering (Rejected connection_refused))
                  "ubuntu 24.04 & more" (Some [2000; 5000]%Z) eq_refl)).
  repeat constructor; discriminate.
Defined.

(** ** Methods and bodies of the requests *)

Lemma lookup_method_options (cls : ClientClass) (c : Call) :
  c <> testConnection ->
  exists endpoint options,
    lookup_method cls c = request endpoint options
    /\ method options = (if posts c then Some "POST" else None)
    /\ match body options with Some _ => true | None => false end = posts_body c.
Proof.
  destruct c; intros H; try congruence; try (destruct cls);
    eexists; eexists; (split; [reflexivity |]); split; reflexivity.
Qed.

(** X4. The client only reads and posts: the request of a call has no
    method set (a GET) and no body, or the method POST; it is a POST for
    the four add calls, the seven search commands, testAllIndexers and
    testIndexer, and of these all but the two indexer tests send a body,
    which is always present (the payload is an object, which always has a
    JSON text). No call issues a PUT or a DELETE. *)
Theorem requests_read_or_post (cls : ClientClass) (c : Call) :
  understands cls c = true ->
  forall (this : ArrClient) (w : World),
    proto this = cls ->
    exists req : Request,
      issued (world_after (invoke c this w)) = issued w ++ [req]
      /\ req_method req = (if posts c then Some "POST" else None)
      /\ (posts_body c = true -> exists text : string, req_body req = Some text)
      /\ (posts_body c = false -> req_body req = None).
Proof.
  intros Hu this w Hp. destruct (testConnection_or_not c) as [-> | Hc].
  - exists (fetch_arguments this "/system/status" no_options).
    rewrite invoke_testConnection.
    rewrite (invoke_request getStatus "/system/status" no_options)
      by (try apply understands_base; reflexivity).
    repeat apply conj; try reflexivity. discriminate.
  - destruct (lookup_method_options cls c Hc) as (endpoint & options & E & Hm & Hb).
    exists (fetch_arguments this endpoint options).
    rewrite (invoke_request c endpoint options) by (rewrite Hp; assumption).
    repeat apply conj; try reflexivity.
    + exact Hm.
    + intros Hpb. cbn [fetch_arguments req_body]. rewrite Hpb in Hb.
      destruct (body options) as [text |]; [now exists text | discriminate].
    + intros Hpb. cbn [fetch_arguments req_body]. rewrite Hpb in Hb.
      now destruct (body options).
Qed.

Lemma requests_read_or_post_witness :
  (exists req : Request,
      issued (world_after (invoke (searchBook [4; 5]%Z) sample_readarr
                             (world_answering (Rejected connection_refused)))) = [] ++ [req]
      /\ req_method req = Some "POST"
      /\ exists text : string, req_body req = Some text)
  /\ (exists req : Request,
         issued (world_after (invoke getQueue sample_readarr
                                (world_answering (Rejected connection_refused)))) = [] ++ [req]
         /\ req_method req = None
         /\ req_body req = None).
Proof.
  split.
  - destruct (requests_read_or_post ReadarrClientClass (searchBook [4; 5]%Z) eq_refl
                sample_readarr (world_answering (Rejected connection_refused)) eq_refl)
      as (req & Hreq & Hm & Hb & _).
    exists req. repeat apply conj; [exact Hreq | exact Hm | apply Hb; reflexivity].
  - destruct (requests_read_or_post ReadarrClientClass getQueue eq_refl
                sample_readarr (world_answering (Rejected connection_refused)) eq_refl)
      as (req & Hreq & Hm & _ & Hb).
    exists req. repeat apply conj; [exact Hreq | exact Hm | apply Hb; reflexivity].
Defined.

(** ** What the add payloads keep of the caller's entity *)

Lemma set_property_fresh (k : string) (v : value) (o : object) :
  k ∉ map fst o -> set_property k v o = o ++ [(k, v)].
Proof.
  induction o as [|[k' v'] o IH]; intros H; simpl; [reflexivity |].
  simpl in H. apply not_elem_of_cons in H as [Hne Hin].
  apply String.eqb_neq in Hne. rewrite Hne. now rewrite IH.
Qed.

Lemma object_spread_fresh (src target : object) :
  NoDup (map fst (target ++ src)) -> object_spread target src = target ++ src.
Proof.
  unfold object_spread. revert target.
  induction src as [|[k v] src IH]; intros target H; simpl.
  - now rewrite app_nil_r.
  - assert (Hk : k ∉ map fst target).
    { rewrite map_app in H. apply NoDup_app in H as (_ & Hdisj & _).
      intros Hin. apply (Hdisj k Hin). simpl. apply list_elem_of_here. }
    rewrite (set_property_fresh _ _ _ Hk). rewrite IH.
    + now rewrite <- app_assoc.
    + now rewrite <- app_assoc.
Qed.

(** Spreading an object into an empty literal copies it. *)
Lemma object_spread_copy (o : object) :
  NoDup (map fst o) -> object_spread [] o = o.
Proof. intros H. now rewrite object_spread_fresh. Qed.

Lemma own_property_spread_other (target : object) (fields : list (string * value)) (k : string) :
  k ∉ map fst fields ->
  own_property k (object_spread target fields) = own_property k target.
Proof.
  unfold object_spread. revert target.
  induction fields as [|[k' v'] fields IH]; intros target H; simpl; [reflexivity |].
  simpl in H. apply not_elem_of_cons in H as [Hne Hin].
  rewrite IH by assumption. apply own_property_set_ne. congruence.
Qed.

(** X5. The add calls pass the caller's entity through: each issues one
    POST whose body is the JSON text of a payload in which, when the
    entity has no property twice (as every object), each property of the
    entity other than monitored, addOptions and seasonFolder has the value
    it had, and a name that is not in the entity and is none of those
    three is absent. *)
Theorem add_payload_keeps_other_fields (entity : object) (k : string) :
  NoDup (map fst entity) ->
  k <> "monitored" -> k <> "seasonFolder" -> k <> "addOptions" ->
  (forall (this : ArrClient) (w : World),
      proto this = SonarrClientClass ->
      issued (world_after (invoke (addSeries entity) this w)) =
        issued w ++ [post_request this "/series" (addSeries_payload entity)]
      /\ own_property k (addSeries_payload entity) = own_property k entity)
  /\ (forall (this : ArrClient) (w : World),
         proto this = RadarrClientClass ->
         issued (world_after (invoke (addMovie entity) this w)) =
           issued w ++ [post_request this "/movie" (addMovie_payload entity)]
         /\ own_property k (addMovie_payload entity) = own_property k entity)
  /\ (forall (this : ArrClient) (w : World),
         proto this = LidarrClientClass ->
         issued (world_after (invoke (addArtist entity) this w)) =
           issued w ++ [post_request this "/artist" (addArtist_payload entity)]
         /\ own_property k (addArtist_payload entity) = own_property k entity)
  /\ (forall (this : ArrClient) (w : World),
         proto this = ReadarrClientClass ->
         issued (world_after (invoke (addAuthor entity) this w)) =
           issued w ++ [post_request this "/author" (addAuthor_payload entity)]
         /\ own_property k (addAuthor_payload entity) = own_property k entity).
Proof.
  intros Hnd H1 H2 H3.
  assert (Hother : forall fields : list (string * value),
             k ∉ map fst fields ->
             own_property k (object_literal entity fields) = own_property k entity).
  { intros fields Hk. unfold object_literal. rewrite (object_spread_copy _ Hnd).
    now apply own_property_spread_other. }
  repeat apply conj; intros this w Hp;
    (split;
     [ first [ now apply invoke_addSeries | now apply invoke_addMovie
             | now apply invoke_addArtist | now apply invoke_addAuthor ]
     | apply Hother; simpl;
       repeat (apply not_elem_of_cons; split; [assumption |]); apply not_elem_of_nil ]).
Qed.

Lemma add_payload_keeps_other_fields_witness :
  issued (world_after (invoke (addSeries series_with_seasonFolder_off) sample_sonarr
                         (world_answering (Rejected connection_refused)))) =
    [] ++ [post_request sample_sonarr "/series"
             (addSeries_payload series_with_seasonFolder_off)]
  /\ own_property "qualityProfileId" (addSeries_payload series_with_seasonFolder_off)
       = own_property "qualityProfileId" series_with_seasonFolder_off.
Proof.
  apply (proj1 (add_payload_keeps_other_fields series_with_seasonFolder_off
                  "qualityProfileId" ltac:(compute_done) ltac:(discriminate)
                  ltac:(discriminate) ltac:(discriminate))
           sample_sonarr (world_answering (Rejected connection_refused)) eq_refl).
Defined.

(** ** Defaults apply to null and undefined only *)

Lemma monitored_of_payload (entity : object) :
  own_property "monitored" (addSeries_payload entity) =
    Some (nullish_coalesce (get_property entity "monitored") (JBool true))
  /\ own_property "monitored" (addMovie_payload entity) =
       Some (nullish_coalesce (get_property entity "monitored") (JBool true))
  /\ own_property "monitored" (addArtist_payload entity) =
       Some (nullish_coalesce (get_property entity "monitored") (JBool true))
  /\ own_property "monitored" (addAuthor_payload entity) =
       Some (nullish_coalesce (get_property entity "monitored") (JBool true))
  /\ own_property "seasonFolder" (addSeries_payload entity) =
       Some (nullish_coalesce (get_property entity "seasonFolder") (JBool true)).
Proof. repeat apply conj; now payload_lookup. Qed.

Lemma nullish_coalesce_cases (v d : value) :
  ((v = JNull \/ v = JUndefined) -> nullish_coalesce v d = d)
  /\ (v <> JNull -> v <> JUndefined -> nullish_coalesce v d = v).
Proof.
  split.
  - now intros [-> | ->].
  - intros H1 H2. destruct v; try reflexivity; congruence.
Qed.

(** X6. The defaults of the add calls are those of the ?? operator: in
    the payload whose JSON text each call posts, a monitored (or, for
    addSeries, a seasonFolder) that the entity holds as null or as
    undefined is true, like a missing one, while any other value is as
    the entity has it, also a falsy one such as 0 or the empty string. *)
Theorem add_defaults_replace_nullish_only (entity : object) :
  let monitored_posted_as (x : value) :=
    own_property "monitored" (addSeries_payload entity) = Some x
    /\ own_property "monitored" (addMovie_payload entity) = Some x
    /\ own_property "monitored" (addArtist_payload entity) = Some x
    /\ own_property "monitored" (addAuthor_payload entity) = Some x in
  (forall (this : ArrClient) (w : World),
      proto this = SonarrClientClass ->
      issued (world_after (invoke (addSeries entity) this w)) =
        issued w ++ [post_request this "/series" (addSeries_payload entity)])
  /\ (forall (this : ArrClient) (w : World),
         proto this = RadarrClientClass ->
         issued (world_after (invoke (addMovie entity) this w)) =
           issued w ++ [post_request this "/movie" (addMovie_payload entity)])
  /\ (forall (this : ArrClient) (w : World),
         proto this = LidarrClientClass ->
         issued (world_after (invoke (addArtist entity) this w)) =
           issued w ++ [post_request this "/artist" (addArtist_payload entity)])
  /\ (forall (this : ArrClient) (w : World),
         proto this = ReadarrClientClass ->
         issued (world_after (invoke (addAuthor entity) this w)) =
           issued w ++ [post_request this "/author" (addAuthor_payload entity)])
  /\ (forall v : value,
         own_property "monitored" entity = Some v ->
         ((v = JNull \/ v = JUndefined) -> monitored_posted_as (JBool true))
         /\ (v <> JNull -> v <> JUndefined -> monitored_posted_as v))
  /\ (forall s : value,
         own_property "seasonFolder" entity = Some s ->
         ((s = JNull \/ s = JUndefined) ->
          own_property "seasonFolder" (addSeries_payload entity) = Some (JBool true))
         /\ (s <> JNull -> s <> JUndefined ->
             own_property "seasonFolder" (addSeries_payload entity) = Some s)).
Proof.
  intros monitored_posted_as. subst monitored_posted_as. cbv beta.
  destruct (monitored_of_payload entity) as (H1 & H2 & H3 & H4 & H5).
  split; [intros; now apply invoke_addSeries |].
  split; [intros; now apply invoke_addMovie |].
  split; [intros; now apply invoke_addArtist |].
  split; [intros; now apply invoke_addAuthor |].
  split.
  - intros v Hv. rewrite H1, H2, H3, H4, (get_property_present _ _ _ Hv).
    destruct (nullish_coalesce_cases v (JBool true)) as (Hn & Hk).
    split.
    + intros H. now rewrite (Hn H).
    + intros Ha Hb. now rewrite (Hk Ha Hb).
  - intros s Hs. rewrite H5, (get_property_present _ _ _ Hs).
    destruct (nullish_coalesce_cases s (JBool true)) as (Hn & Hk).
    split.
    + intros H. now rewrite (Hn H).
    + intros Ha Hb. now rewrite (Hk Ha Hb).
Qed.

Lemma add_defaults_replace_nullish_only_witness :
  issued (world_after
     (invoke (addMovie [("tmdbId", JNum 1); ("monitored", JNull)]) sample_radarr
        (world_answering (Rejected connection_refused)))) =
    [] ++ [post_request sample_radarr "/movie"
             (addMovie_payload [("tmdbId", JNum 1); ("monitored", JNull)])]
  /\ own_property "monitored" (addMovie_payload [("tmdbId", JNum 1); ("monitored", JNull)])
       = Some (JBool true)
  /\ own_property "monitored" (addMovie_payload [("tmdbId", JNum 1); ("monitored", JNum 0)])
       = Some (JNum 0)
  /\ own_property "seasonFolder" (addSeries_payload [("seasonFolder", JNull)])
       = Some (JBool true).
Proof.
  split; [| split; [| split]].
  - exact (proj1 (proj2 (add_defaults_replace_nullish_only
                           [("tmdbId", JNum 1); ("monitored", JNull)]))
             sample_radarr (world_answering (Rejected connection_refused)) eq_refl).
  - destruct (add_defaults_replace_nullish_only [("tmdbId", JNum 1); ("monitored", JNull)])
      as (_ & _ & _ & _ & H & _).
    exact (proj1 (proj2 (proj1 (H JNull eq_refl) (or_introl eq_refl)))).
  - destruct (add_defaults_replace_nullish_only [("tmdbId", JNum 1); ("monitored", JNum 0)])
      as (_ & _ & _ & _ & H & _).
    refine (proj1 (proj2 (proj2 (H (JNum 0) eq_refl) _ _))); discriminate.
  - destruct (add_defaults_replace_nullish_only [("seasonFolder", JNull)])
      as (_ & _ & _ & _ & _ & H).
    exact (proj1 (H JNull eq_refl) (or_introl eq_refl)).
Defined.

(** ** When a call returns *)

Lemma ok_success_status (response : Response) :
  ok response = true <-> success_status (status response).
Proof.
  unfold ok, success_status. rewrite andb_true_iff, !N.leb_le. reflexivity.
Qed.

Lemma dispatch_completion_normal (this : ArrClient) (a : Settled Response) (v : value) :
  dispatch_completion this a = Normal v <->
  exists response,
    a = Fulfilled response
    /\ success_status (status response)
    /\ json response = Fulfilled v.
Proof.
  unfold dispatch_completion. split.
  - destruct a as [response | r]; [| discriminate].
    destruct (ok response) eqn:Hok.
    + destruct (json response) as [v' | r] eqn:Hj; [| discriminate].
      intros [= ->]. exists response.
      split; [reflexivity |]. split; [now apply ok_success_status | exact Hj].
    + destruct (text response); discriminate.
  - intros (response & -> & Hs & Hj). apply ok_success_status in Hs.
    now rewrite Hs, Hj.
Qed.

(** X7. A call other than testConnection returns a value exactly when the
    response has a status from 200 to 299 and its body decodes as JSON,
    and the value is that decoded body; a response with such a status and
    a body that does not decode makes the call fail with the decoder's own
    error, which is neither the service-API error nor a failure of the
    transport. *)
Theorem call_returns_decoded_success (cls : ClientClass) (c : Call) :
  understands cls c = true ->
  c <> testConnection ->
  exists endpoint options,
    forall (this : ArrClient) (w : World),
      proto this = cls ->
      let req := fetch_arguments this endpoint options in
      issued (world_after (invoke c this w)) = issued w ++ [req]
      /\ (forall v : value,
             completion (invoke c this w) = Normal v <->
             exists response,
               answer w req = Fulfilled response
               /\ success_status (status response)
               /\ json response = Fulfilled v)
      /\ (forall (response : Response) (r : Rejection),
             answer w req = Fulfilled response ->
             success_status (status response) ->
             json response = Rejected r ->
             completion (invoke c this w) = Throw (Propagated r)).
Proof.
  intros Hu Hc. destruct (invoke_run cls c Hu) as (endpoint & options & _ & H).
  exists endpoint, options. intros this w Hp req.
  destruct (H this w Hp) as (_ & Hw & Hcompl). fold req in Hw, Hcompl.
  assert (Hcompl' : completion (invoke c this w) = dispatch_completion this (answer w req))
    by (destruct c; congruence).
  rewrite Hcompl', Hw. repeat apply conj.
  - reflexivity.
  - intros v. apply dispatch_completion_normal.
  - intros response r Ha Hs Hj. apply ok_success_status in Hs.
    unfold dispatch_completion. now rewrite Ha, Hs, Hj.
Qed.

Lemma call_returns_decoded_success_witness :
  completion (invoke getIndexerStats (construct (new_ProwlarrClient sample_config))
                (world_answering (Fulfilled
                   {| status := 200; statusText := "OK";
                      text := Fulfilled "<html>"; json := Rejected not_json |})))
  = Throw (Propagated not_json).
Proof.
  destruct (call_returns_decoded_success ProwlarrClientClass getIndexerStats eq_refl
              ltac:(discriminate)) as (endpoint & options & H).
  destruct (H (construct (new_ProwlarrClient sample_config))
              (world_answering (Fulfilled
                 {| status := 200; statusText := "OK";
                    text := Fulfilled "<html>"; json := Rejected not_json |}))
              eq_refl) as (_ & _ & Hbad).
  apply (Hbad {| status := 200; statusText := "OK";
                 text := Fulfilled "<html>"; json := Rejected not_json |} not_json).
  - reflexivity.
  - split; apply N.leb_le; reflexivity.
  - reflexivity.
Defined.

(** X8. testConnection returns true exactly when the answer to its one
    request, a GET of "/system/status", has a status from 200 to 299 and a
    body that decodes as JSON; in every other case, also a 2xx answer with
    a body that is not JSON, it returns false. *)
Theorem testConnection_true_iff (this : ArrClient) (w : World) :
  let req :=
    {| req_url := url (config this) +:+ "/api/" +:+ apiVersion this +:+ "/system/status";
       req_method := None;
       req_body := None;
       req_headers := request_headers this no_options |} in
  issued (world_after (invoke testConnection this w)) = issued w ++ [req]
  /\ (completion (invoke testConnection this w) = Normal (JBool true) <->
      exists (response : Response) (v : value),
        answer w req = Fulfilled response
        /\ success_status (status response)
        /\ json response = Fulfilled v)
  /\ (completion (invoke testConnection this w) <> Normal (JBool true) ->
      completion (invoke testConnection this w) = Normal (JBool false)).
Proof.
  intros req. rewrite invoke_testConnection.
  rewrite (invoke_request getStatus "/system/status" no_options)
    by (try apply understands_base; reflexivity).
  change (fetch_arguments this "/system/status" no_options) with req.
  unfold completion, world_after. cbn [fst snd].
  split; [reflexivity |]. split.
  - split.
    + intros [= Hn]. destruct (dispatch_completion this (answer w req)) as [v | e] eqn:E;
        [| discriminate].
      apply dispatch_completion_normal in E as (response & Ha & Hs & Hj).
      now exists response, v.
    + intros (response & v & Ha & Hs & Hj).
      assert (E : dispatch_completion this (answer w req) = Normal v)
        by (apply dispatch_completion_normal; now exists response).
      now rewrite E.
  - destruct (dispatch_completion this (answer w req)); intros H.
    + exfalso. apply H. reflexivity.
    + reflexivity.
Qed.

Lemma testConnection_true_iff_witness :
  completion (invoke testConnection sample_sonarr
                (world_answering (Fulfilled
                   {| status := 200; statusText := "OK";
                      text := Fulfilled "<html>"; json := Rejected not_json |})))
  = Normal (JBool false).
Proof.
  apply (proj2 (proj2 (testConnection_true_iff sample_sonarr
           (world_answering (Fulfilled
              {| status := 200; statusText := "OK";
                 text := Fulfilled "<html>"; json := Rejected not_json |}))))).
  vm_compute. discriminate.
Defined.

(** ** Where the API key goes *)

Lemma dispatch_completion_with_apiKey (k : string) (this : ArrClient) (a : Settled Response) :
  dispatch_completion (with_apiKey k this) a = dispatch_completion this a.
Proof. reflexivity. Qed.

(** X9. The API key is sent in the X-Api-Key header and nowhere else: the
    same call on the same client with another key issues a request with
    the same URL, method, body and other headers, only X-Api-Key being the
    other key; and given the same answer it completes in the same way, so
    the message of a service-API error does not hold the key. *)
Theorem api_key_only_in_header (cls : ClientClass) (c : Call) (k : string) :
  understands cls c = true ->
  forall (this : ArrClient) (w w' : World),
    proto this = cls ->
    exists req req' : Request,
      issued (world_after (invoke c this w)) = issued w ++ [req]
      /\ issued (world_after (invoke c (with_apiKey k this) w')) = issued w' ++ [req']
      /\ req_url req' = req_url req
      /\ req_method req' = req_method req
      /\ req_body req' = req_body req
      /\ (forall h : string, h <> "X-Api-Key" -> req_headers req' !! h = req_headers req !! h)
      /\ req_headers req' !! "X-Api-Key" = Some k
      /\ (answer w' req' = answer w req ->
          completion (invoke c (with_apiKey k this) w') = completion (invoke c this w)).
Proof.
  intros Hu this w w' Hp.
  destruct (invoke_run cls c Hu) as (endpoint & options & Hh & H).
  destruct (H this w Hp) as (_ & Hw & Hc).
  destruct (H (with_apiKey k this) w' Hp) as (_ & Hw' & Hc').
  exists (fetch_arguments this endpoint options),
    (fetch_arguments (with_apiKey k this) endpoint options).
  rewrite Hw, Hw'. repeat apply conj; try reflexivity.
  - intros h Hne. cbn [fetch_arguments req_headers].
    rewrite !request_headers_lookup, Hh.
    change (None ≫= (fun supplied : gmap string string => supplied !! h)) with (@None string).
    destruct (decide (h = "X-Api-Key")); [contradiction | reflexivity].
  - cbn [fetch_arguments req_headers]. now rewrite request_headers_lookup, Hh.
  - intros Ha. rewrite Hc, Hc', Ha. now rewrite !dispatch_completion_with_apiKey.
Qed.

Lemma api_key_only_in_header_witness :
  exists req req' : Request,
    issued (world_after (invoke (addMovie movie_unmonitored) sample_radarr
                           (world_answering (Fulfilled response_500_boom)))) = [] ++ [req]
    /\ issued (world_after (invoke (addMovie movie_unmonitored)
                              (with_apiKey "another-key" sample_radarr)
                              (world_answering (Fulfilled response_500_boom)))) = [] ++ [req']
    /\ req_url req' = req_url req
    /\ req_body req' = req_body req
    /\ req_headers req' !! "X-Api-Key" = Some "another-key"
    /\ completion (invoke (addMovie movie_unmonitored)
                     (with_apiKey "another-key" sample_radarr)
                     (world_answering (Fulfilled response_500_boom)))
       = completion (invoke (addMovie movie_unmonitored) sample_radarr
                       (world_answering (Fulfilled response_500_boom))).
Proof.
  destruct (api_key_only_in_header RadarrClientClass (addMovie movie_unmonitored)
              "another-key" eq_refl sample_radarr
              (world_answering (Fulfilled response_500_boom))
              (world_answering (Fulfilled response_500_boom)) eq_refl)
    as (req & req' & H1 & H2 & H3 & _ & H5 & _ & H7 & H8).
  exists req, req'.
  split; [exact H1 |]. split; [exact H2 |]. split; [exact H3 |].
  split; [exact H5 |]. split; [exact H7 |]. apply H8. reflexivity.
Defined.

(** ** Calls one after the other *)

Lemma invoke_issued (c : Call) (this : ArrClient) (w : World) :
  issued (world_after (invoke c this w)) = issued w ++ requests_of this c.
Proof.
  unfold requests_of. destruct (understands (proto this) c) eqn:Hu.
  - destruct (invoke_run _ c Hu) as (endpoint & options & _ & H).
    destruct (H this w eq_refl) as (_ & -> & _).
    destruct (H this (world_answering (Rejected connection_refused)) eq_refl)
      as (_ & -> & _).
    reflexivity.
  - unfold invoke. rewrite Hu. cbn. now rewrite app_nil_r.
Qed.

Lemma requests_of_understood (c : Call) (this : ArrClient) :
  length (requests_of this c) = if understands (proto this) c then 1 else 0.
Proof.
  unfold requests_of. destruct (understands (proto this) c) eqn:Hu.
  - destruct (invoke_run _ c Hu) as (endpoint & options & _ & H).
    now destruct (H this (world_answering (Rejected connection_refused)) eq_refl)
      as (_ & -> & _).
  - unfold invoke. now rewrite Hu.
Qed.

(** X10. Calls do not share, save, merge or repeat requests: the requests
    issued by a sequence of calls are, in the order of the calls, those
    each call issues on its own, whatever the answers were; a call issues
    at most one request, so a sequence of n calls issues at most n, and
    the same call made twice sends its request twice. *)
Theorem requests_of_a_sequence (cs : list Call) (this : ArrClient) (w : World) :
  issued (invoke_all cs this w).2 = issued w ++ flat_map (requests_of this) cs
  /\ (forall c : Call, length (requests_of this c) <= 1)
  /\ length (issued (invoke_all cs this w).2) <= length (issued w) + length cs.
Proof.
  assert (Hone : forall c : Call, length (requests_of this c) <= 1).
  { intros c. rewrite requests_of_understood. destruct (understands _ _); lia. }
  assert (Hseq : forall cs w,
             issued (invoke_all cs this w).2 = issued w ++ flat_map (requests_of this) cs).
  { clear cs w. induction cs as [|c cs IH]; intros w.
    - simpl. now rewrite app_nil_r.
    - cbn [invoke_all flat_map]. rewrite invoke_this_after.
      now rewrite IH, invoke_issued, <- app_assoc. }
  split; [apply Hseq |]. split; [exact Hone |].
  rewrite Hseq, length_app. apply Nat.add_le_mono_l.
  clear w Hseq. induction cs as [|c cs IH]; simpl; [lia |].
  rewrite length_app. specialize (Hone c). lia.
Qed.

(** ** The stored base URL, once more *)

Lemma ends_with_slash_inv (s : string) :
  ends_with_slash s = true -> exists q, s = q +:+ "/".
Proof.
  induction s as [|c s IH]; [discriminate |].
  rewrite ends_with_slash_cons. destruct (String.eqb s "") eqn:E.
  - apply String.eqb_eq in E. subst s. intros Hc. apply Ascii.eqb_eq in Hc. subst c.
    now exists "".
  - intros H. destruct (IH H) as (q & ->). exists (String c q).
    now rewrite append_cons.
Qed.

(** X11. The base URL a client stores ends in '/' exactly when the
    configured URL ends in "//"; so for every configured URL that does not
    end in "//" the stored URL is clean, and a client built again from the
    stored configuration stores the same URL. *)
Theorem stored_url_ends_with_slash_iff (e : NewExpr) :
  (ends_with_slash (url (config (construct e))) = true <->
   exists p, url (supplied_config e) = p +:+ "//")
  /\ ((forall p, url (supplied_config e) <> p +:+ "//") ->
      replace_trailing_slash (url (config (construct e))) = url (config (construct e))).
Proof.
  rewrite construct_url.
  assert (Hiff : ends_with_slash (replace_trailing_slash (url (supplied_config e))) = true <->
                 exists p, url (supplied_config e) = p +:+ "//").
  { split.
    - intros H. destruct (ends_with_slash (url (supplied_config e))) eqn:E.
      + destruct (ends_with_slash_inv _ E) as (q & Hq).
        rewrite Hq, replace_trailing_slash_append in H.
        destruct (ends_with_slash_inv _ H) as (p & ->).
        exists p. now rewrite Hq, append_assoc.
      + rewrite replace_trailing_slash_unchanged in H by (now apply not_ends_with_slash).
        congruence.
    - intros (p & ->).
      replace (p +:+ "//") with ((p +:+ "/") +:+ "/") by (now rewrite append_assoc).
      rewrite replace_trailing_slash_append. apply ends_with_slash_append. }
  split; [exact Hiff |].
  intros H. apply replace_trailing_slash_unchanged. apply not_ends_with_slash.
  apply not_true_is_false. intros E.
  apply Hiff in E as (p & Hp). now destruct (H p).
Qed.

Lemma stored_url_ends_with_slash_iff_witness :
  replace_trailing_slash (url (config (construct (new_SonarrClient sample_config))))
  = url (config (construct (new_SonarrClient sample_config))).
Proof.
  apply (proj2 (stored_url_ends_with_slash_iff (new_SonarrClient sample_config))).
  intros p Hp.
  assert (H : ends_with_slash (url (config (construct (new_SonarrClient sample_config)))) = true)
    by (apply (proj1 (stored_url_ends_with_slash_iff (new_SonarrClient sample_config)));
        now exists p).
  discriminate H.
Defined.

(** ** The earlier revision *)

Lemma bind_discard_run (m : M value) (this : ArrClient) (w : World) :
  (_ ← m; mret JUndefined) this w =
  (match completion (m this w) with
   | Normal _ => Normal JUndefined
   | Throw e => Throw e
   end, this_after (m this w), world_after (m this w)).
Proof.
  unfold mbind, M_bind, mret, M_ret, completion, this_after, world_after.
  destruct (m this w) as [[[v | e] this'] w']; reflexivity.
Qed.

(** X12. In the earlier revision, searchMissing, searchMovie and
    testAllIndexers issue the same request as in the current one and fail
    in the same cases with the same error (also when a success response
    has a body that is not JSON), but when the call succeeds they return
    undefined: the command resource of the response is dropped. *)
Theorem earlier_revision_returns_nothing (this : ArrClient) (w : World) :
  (forall seriesId : Z,
      world_after (Earlier.SonarrClient_searchMissing seriesId this w) =
        world_after (SonarrClient_searchMissing seriesId this w)
      /\ this_after (Earlier.SonarrClient_searchMissing seriesId this w) = this
      /\ completion (Earlier.SonarrClient_searchMissing seriesId this w) =
           match completion (SonarrClient_searchMissing seriesId this w) with
           | Normal _ => Normal JUndefined
           | Throw e => Throw e
           end)
  /\ (forall movieId : Z,
         world_after (Earlier.RadarrClient_searchMovie movieId this w) =
           world_after (RadarrClient_searchMovie movieId this w)
         /\ this_after (Earlier.RadarrClient_searchMovie movieId this w) = this
         /\ completion (Earlier.RadarrClient_searchMovie movieId this w) =
              match completion (RadarrClient_searchMovie movieId this w) with
              | Normal _ => Normal JUndefined
              | Throw e => Throw e
              end)
  /\ (world_after (Earlier.ProwlarrClient_testAllIndexers this w) =
        world_after (ProwlarrClient_testAllIndexers this w)
      /\ this_after (Earlier.ProwlarrClient_testAllIndexers this w) = this
      /\ completion (Earlier.ProwlarrClient_testAllIndexers this w) =
           match completion (ProwlarrClient_testAllIndexers this w) with
           | Normal _ => Normal JUndefined
           | Throw e => Throw e
           end).
Proof.
  unfold Earlier.SonarrClient_searchMissing, Earlier.RadarrClient_searchMovie,
    Earlier.ProwlarrClient_testAllIndexers, SonarrClient_searchMissing,
    RadarrClient_searchMovie, ProwlarrClient_testAllIndexers.
  repeat apply conj; intros; repeat apply conj;
    rewrite bind_discard_run, ?request_run; reflexivity.
Qed.

Example earlier_searchMissing_drops_command :
  completion (Earlier.SonarrClient_searchMissing 3 sample_sonarr
                (world_answering (Fulfilled (response_200 command_resource))))
    = Normal JUndefined
  /\ completion (SonarrClient_searchMissing 3 sample_sonarr
                   (world_answering (Fulfilled (response_200 command_resource))))
       = Normal command_resource
  /\ completion (Earlier.SonarrClient_searchMissing 3 sample_sonarr
                   (world_answering (Fulfilled response_500_boom)))
       = Throw (NewError "sonarr API error: 500 Internal Server Error - boom").
Proof. repeat apply conj; reflexivity. Qed.
